(** * FoundryVTT-Utils: the function analyzer of [extractor.js]

    A shallow embedding of [FunctionAnalyzer]: the declaration classifier
    ([getFunctionInfo]), the call-graph builder ([analyzeFunction],
    [analyzeCall], [analyzeFile], [analyzeFolder]), the manual file walk
    ([findJSFilesManually]) and the report passes ([generateUsageReport],
    [generateSummary], ...).

    The syntax tree is the one of @babel/parser: a node carries its type
    with the scalar properties the analyzer reads, its start line, and its
    child nodes in the order @babel/traverse visits them.  The parser, the
    point at which a traversal throws, the directory listing and the
    clock are inputs of the model. *)

From Stdlib Require Import ZArith List String Ascii Lia Permutation Sorted.
From stdpp Require Import gmap strings list fin_maps pretty.
Import ListNotations.
Local Open Scope string_scope.
Set Warnings "-register-all".

(* ===================================================================== *)
(** ** Syntax trees *)

Inductive method_kind := KConstructor | KMethod | KGet | KSet.

(** Node types of @babel/types that the analyzer distinguishes, each with
    the scalar properties it reads ([name], [value], [kind], [computed],
    [async]).  Every other node type is an [OtherNode]. *)
Inductive node_type :=
| Identifier (name : string)
| StringLiteral (value : string)
| MemberExpression (computed : bool)
| CallExpression
| AwaitExpression
| FunctionDeclaration (async : bool)
| FunctionExpression (async : bool)
| ArrowFunctionExpression (async : bool)
| ObjectMethod (kind : method_kind) (computed : bool) (async : bool)
| ClassMethod (kind : method_kind) (computed : bool) (async : bool)
| ClassPrivateMethod (kind : method_kind) (async : bool)
| ObjectProperty (computed : bool)
| ClassProperty (computed : bool)
| ClassAccessorProperty (computed : bool)
| ClassPrivateProperty
| VariableDeclarator
| AssignmentExpression
| ClassDeclaration
| OtherNode (type : string).

(** [line] is [node.loc.start.line], absent when the node has no [loc];
    [fields] are the child nodes under their property names, in visiting
    order (an array-valued property contributes one entry per element). *)
Inductive node := Node {
  head : node_type;
  line : option nat;
  fields : list (string * node) }.

(** [n.k] for a node-valued property. *)
Definition field (k : string) (n : node) : option node :=
  snd <$> List.find (fun kc => String.eqb (fst kc) k) (fields n).

(** [x.name], defined on identifiers. *)
Definition name_of (n : node) : option string :=
  match head n with Identifier s => Some s | _ => None end.

Definition isIdentifier (o : option node) : bool :=
  match o with Some (Node (Identifier _) _ _) => true | _ => false end.

Definition isMemberExpression (o : option node) : bool :=
  match o with Some (Node (MemberExpression _) _ _) => true | _ => false end.

Definition isAwaitExpression (n : node) : bool :=
  match head n with AwaitExpression => true | _ => false end.

Definition isCallExpression (n : node) : bool :=
  match head n with CallExpression => true | _ => false end.

Definition isClassDeclaration (n : node) : bool :=
  match head n with ClassDeclaration => true | _ => false end.

(** The [Function] alias of @babel/types: the node types that carry
    [params] and [body] themselves. *)
Definition isFunction (n : node) : bool :=
  match head n with
  | FunctionDeclaration _ | FunctionExpression _ | ArrowFunctionExpression _
  | ObjectMethod _ _ _ | ClassMethod _ _ _ | ClassPrivateMethod _ _ => true
  | _ => false
  end.

(** [node.async || false]. *)
Definition node_async (n : node) : bool :=
  match head n with
  | FunctionDeclaration a | FunctionExpression a | ArrowFunctionExpression a
  | ObjectMethod _ _ a | ClassMethod _ _ a | ClassPrivateMethod _ a => a
  | _ => false
  end.

(** Traversal order of @babel/traverse: a node is entered, its children
    are traversed in order, the node is exited. *)
Inductive event :=
| Enter (n parent : node)
| Exit (n parent : node).

Fixpoint walk (parent n : node) {struct n} : list event :=
  match n with
  | Node _ _ fs =>
      (Enter n parent ::
       (fix walk_fields (l : list (string * node)) : list event :=
          match l with
          | [] => []
          | (_, c) :: r => walk n c ++ walk_fields r
          end) fs ++ [Exit n parent])%list
  end.

(** [traverse(ast, ...)] and [path.traverse(...)] visit what lies below
    their root, not the root itself. *)
Definition walk_children (n : node) : list event :=
  flat_map (fun kc => walk n (snd kc)) (fields n).

(** The paths entered below [n], as (node, parent), in visiting order. *)
Definition entered (evs : list event) : list (node * node) :=
  omap (fun e => match e with Enter c p => Some (c, p) | Exit _ _ => None end) evs.

Definition descendants (n : node) : list (node * node) :=
  entered (walk_children n).

(* ===================================================================== *)
(** ** Declaration classifier *)

Record function_info := { info_name : string; shouldTrack : bool }.

Definition getComputedPropertyName (memberExpr : node) : string :=
  match field "object" memberExpr, field "property" memberExpr with
  | Some (Node (Identifier o) _ _), Some (Node (Identifier p) _ _) =>
      o +:+ "." +:+ p
  | _, _ => "computed"
  end.

Definition accessor_prefix (k : method_kind) : string :=
  match k with KGet => "get " | KSet => "set " | _ => "" end.

(** The branch shared by class methods and object methods, after the
    constructor test. *)
Definition method_info (method : node) (kind : method_kind) (computed : bool)
  : function_info :=
  match field "key" method with
  | Some (Node (Identifier k) _ _) =>
      {| info_name := accessor_prefix kind +:+ k; shouldTrack := true |}
  | Some (Node (MemberExpression _) _ _ as key) =>
      if computed
      then {| info_name := "[" +:+ getComputedPropertyName key +:+ "]";
              shouldTrack := true |}
      else {| info_name := "anonymous method"; shouldTrack := false |}
  | _ => {| info_name := "anonymous method"; shouldTrack := false |}
  end.

(** [node.id && node.id.name]: the own name of a node, when truthy. *)
Definition own_name (n : node) : option string :=
  match field "id" n with
  | Some i => match name_of i with
              | Some "" => None
              | o => o
              end
  | None => None
  end.

Definition expression_info (parent : node) : function_info :=
  let fallthrough :=
    match head parent, field "left" parent with
    | AssignmentExpression, Some (Node (MemberExpression _) _ _ as memberExpr) =>
        match field "property" memberExpr with
        | Some (Node (Identifier p) _ _) =>
            {| info_name := p; shouldTrack := true |}
        | _ => {| info_name := "callback/inline function"; shouldTrack := false |}
        end
    | _, _ => {| info_name := "callback/inline function"; shouldTrack := false |}
    end in
  let property (computed : bool) :=
    match field "key" parent with
    | Some (Node (Identifier k) _ _) => {| info_name := k; shouldTrack := true |}
    | Some (Node (StringLiteral v) _ _) => {| info_name := v; shouldTrack := true |}
    | Some (Node (MemberExpression _) _ _ as key) =>
        if computed
        then {| info_name := "[" +:+ getComputedPropertyName key +:+ "]";
                shouldTrack := true |}
        else fallthrough
    | _ => fallthrough
    end in
  match head parent with
  | VariableDeclarator =>
      match field "id" parent with
      | Some (Node (Identifier x) _ _) => {| info_name := x; shouldTrack := true |}
      | _ => fallthrough
      end
  | ObjectProperty computed | ClassProperty computed
  | ClassAccessorProperty computed => property computed
  | _ => fallthrough
  end.

Definition getFunctionInfo (n parent : node) : function_info :=
  match own_name n with
  | Some x => {| info_name := x; shouldTrack := true |}
  | None =>
      match head parent with
      | ClassMethod KConstructor _ _ =>
          {| info_name := "constructor"; shouldTrack := true |}
      | ClassMethod kind computed _ => method_info parent kind computed
      | ObjectMethod kind computed _ => method_info parent kind computed
      | _ =>
          match head n with
          | ArrowFunctionExpression _ | FunctionExpression _ =>
              expression_info parent
          | _ => {| info_name := "anonymous"; shouldTrack := false |}
          end
      end
  end.

(** *** Blacklist *)

Definition functionBlacklist : list string :=
  [ "render"; "preloadTemplates"; "constructor";
    "onChange"; "onClick"; "onSubmit"; "onLoad"; "onReady"; "onFocus";
    "onBlur"; "onMouseDown"; "onMouseUp"; "onMouseOver"; "onMouseOut";
    "onKeyDown"; "onKeyUp"; "onInput"; "onScroll"; "onResize"; "onError";
    "onSuccess"; "onComplete";
    "componentDidMount"; "componentWillUnmount"; "componentDidUpdate";
    "beforeMount"; "mounted"; "beforeUpdate"; "updated"; "beforeDestroy";
    "destroyed";
    "useEffect"; "useState"; "useCallback"; "useMemo"; "useRef" ].

Definition is_upper (c : ascii) : bool :=
  (65 <=? nat_of_ascii c)%nat && (nat_of_ascii c <=? 90)%nat.

(** [/^p[A-Z]/.test(s)] for a literal [p]. *)
Fixpoint prefix_then_upper (p s : string) : bool :=
  match p, s with
  | EmptyString, String c _ => is_upper c
  | String a p', String b s' => Ascii.eqb a b && prefix_then_upper p' s'
  | _, EmptyString => false
  end.

(** [/suf$/.test(s)] for a literal [suf]. *)
Definition ends_with (suf s : string) : bool :=
  (String.length suf <=? String.length s)%nat &&
  String.eqb (substring (String.length s - String.length suf)
                        (String.length suf) s) suf.

Definition isBlacklistedFunction (functionName : string) : bool :=
  existsb (String.eqb functionName) functionBlacklist
  || prefix_then_upper "on" functionName
  || prefix_then_upper "handle" functionName
  || ends_with "Handler" functionName
  || ends_with "Listener" functionName
  || ends_with "Callback" functionName
  || prefix_then_upper "_on" functionName.

(* ===================================================================== *)
(** ** Call resolution *)

Definition getCallName (n : node) : option string :=
  match field "callee" n with
  | Some (Node (Identifier x) _ _) => Some x
  | Some (Node (MemberExpression _) _ _ as callee) =>
      match field "property" callee with
      | Some (Node (Identifier p) _ _) => Some p
      | _ => None
      end
  | _ => None
  end.

Definition isPromiseOperation (n : node) : bool :=
  match field "callee" n with
  | Some (Node (MemberExpression _) _ _ as callee) =>
      match field "property" callee with
      | Some (Node (Identifier p) _ _) =>
          existsb (String.eqb p) ["then"; "catch"; "finally"]
      | _ =>
          match field "object" callee with
          | Some (Node (Identifier o) _ _) => String.eqb o "Promise"
          | _ => false
          end
      end
  | _ => false
  end.

(* ===================================================================== *)
(** ** Analyzer state *)

Record caller := { c_file : string; c_line : option nat; awaited : bool }.

Record aggregate := { callers : list caller; totalCalls : nat }.

Record operation := { op_line : option nat; code : string }.

(** A declaration; its [calls] and [awaitedCalls] arrays are never
    written to and are left out. *)
Record func := {
  fn_name : string;
  fn_async : bool;
  fn_file : string;
  fn_class : option string;
  fn_line : option nat;
  awaitedOperations : list operation;
  promiseOperations : list operation }.

(** [functions] is a [Map] whose iteration order the reports rely on:
    an association list in insertion order.  [functionCalls] is only
    looked up by key. *)
Record analyzer := {
  functions : list (string * func);
  functionCalls : gmap string aggregate;
  errors : list string;
  skippedFunctionCount : nat }.

Definition new_analyzer : analyzer :=
  {| functions := []; functionCalls := ∅; errors := [];
     skippedFunctionCount := 0 |}.

(** [Map.prototype.set]: an existing key keeps its position and takes
    the new value, a new key goes last. *)
Fixpoint map_set {V} (k : string) (v : V) (m : list (string * V))
  : list (string * V) :=
  match m with
  | [] => [(k, v)]
  | (k', v') :: r =>
      if String.eqb k' k then (k, v) :: r else (k', v') :: map_set k v r
  end.

Definition line_text (l : option nat) : string :=
  match l with Some n => pretty n | None => "unknown" end.

Definition empty_aggregate : aggregate := {| callers := []; totalCalls := 0 |}.

(** [if (!functionCalls.has(name)) functionCalls.set(name, {...})]. *)
Definition ensure_aggregate (x : string) (m : gmap string aggregate)
  : gmap string aggregate :=
  match m !! x with
  | Some _ => m
  | None => <[x := empty_aggregate]> m
  end.

Definition skip (a : analyzer) : analyzer :=
  {| functions := functions a; functionCalls := functionCalls a;
     errors := errors a;
     skippedFunctionCount := S (skippedFunctionCount a) |}.

(** The inner [path.traverse] of [analyzeFunction]. *)
Definition collect_awaited (n : node) : list operation :=
  map (fun cp => {| op_line := line (fst cp); code := "AwaitExpression" |})
      (List.filter (fun cp => isAwaitExpression (fst cp)) (descendants n)).

Definition collect_promise (n : node) : list operation :=
  map (fun cp => {| op_line := line (fst cp); code := "CallExpression" |})
      (List.filter (fun cp => isCallExpression (fst cp)
                              && isPromiseOperation (fst cp))
                   (descendants n)).

Definition functionId (file x : string) (l : option nat) : string :=
  file +:+ ":" +:+ x +:+ ":" +:+ line_text l.

Definition analyzeFunction (n parent : node) (file : string)
  (className : option string) (a : analyzer) : analyzer :=
  let functionInfo := getFunctionInfo n parent in
  if negb (shouldTrack functionInfo) then skip a
  else if isBlacklistedFunction (info_name functionInfo) then skip a
  else
    {| functions :=
         map_set (functionId file (info_name functionInfo) (line n))
           {| fn_name := info_name functionInfo;
              fn_async := node_async n;
              fn_file := file;
              fn_class := className;
              fn_line := line n;
              awaitedOperations := collect_awaited n;
              promiseOperations := collect_promise n |}
           (functions a);
       functionCalls := ensure_aggregate (info_name functionInfo) (functionCalls a);
       errors := errors a;
       skippedFunctionCount := skippedFunctionCount a |}.

Definition analyzeCall (n parent : node) (file : string) (a : analyzer)
  : analyzer :=
  match getCallName n with
  | None | Some "" => a
  | Some functionName =>
      let m := ensure_aggregate functionName (functionCalls a) in
      let callInfo := default empty_aggregate (m !! functionName) in
      {| functions := functions a;
         functionCalls :=
           <[functionName :=
               {| callers := (callers callInfo ++
                              [{| c_file := file; c_line := line n;
                                  awaited := isAwaitExpression parent |}])%list;
                  totalCalls := S (totalCalls callInfo) |}]> m;
         errors := errors a;
         skippedFunctionCount := skippedFunctionCount a |}
  end.

(** One visitor call of [analyzeFile]; the first component is the
    [currentClass] variable of its closure. *)
Definition class_name (n : node) : option string :=
  match field "id" n with
  | Some i => name_of i
  | None => Some "AnonymousClass"
  end.

Definition visit (file : string) (st : option string * analyzer) (e : event)
  : option string * analyzer :=
  match e with
  | Enter n parent =>
      if isClassDeclaration n then (class_name n, snd st)
      else if isFunction n then (fst st, analyzeFunction n parent file (fst st) (snd st))
      else if isCallExpression n then (fst st, analyzeCall n parent file (snd st))
      else st
  | Exit n _ =>
      if isClassDeclaration n then (None, snd st) else st
  end.

(** What reading, parsing and traversing one file gives.  [Parsed] is
    a file whose traversal runs to its end; [Interrupted] is a file that
    parses and whose traversal throws [message] (a stack overflow on a
    deep tree, an error of the scope analysis), possibly before the
    first visit, once [visits] events have been handled. *)
Inductive source :=
| Unreadable (message : string)
| Malformed (message : string)
| Parsed (ast : node)
| Interrupted (ast : node) (visits : nat) (message : string).

Record file_entry := { relativePath : string; content : source }.

(** [analyzeFile]: the analyzer as the call leaves it, and the message
    of the error it throws, if it throws.  Reading and parsing come
    before the first visit; a traversal that throws leaves what the
    visits before the throw have recorded. *)
Definition analyzeFile (f : file_entry) (a : analyzer) : analyzer * option string :=
  match content f with
  | Unreadable m => (a, Some m)
  | Malformed m => (a, Some ("Parse error: " +:+ m))
  | Parsed ast =>
      (snd (fold_left (visit (relativePath f)) (walk_children ast) (None, a)),
       None)
  | Interrupted ast visits m =>
      (snd (fold_left (visit (relativePath f))
                      (take visits (walk_children ast)) (None, a)),
       Some m)
  end.

(** [this.errors.push(errorMsg)]. *)
Definition push_error (m : string) (a : analyzer) : analyzer :=
  {| functions := functions a; functionCalls := functionCalls a;
     errors := (errors a ++ [m])%list;
     skippedFunctionCount := skippedFunctionCount a |}.

(** One iteration of the loop of [analyzeFolder]: an error thrown by
    [analyzeFile] is caught and recorded. *)
Definition analyzeFolder_step (a : analyzer) (f : file_entry) : analyzer :=
  match analyzeFile f a with
  | (a', None) => a'
  | (a', Some m) =>
      push_error ("Error analyzing " +:+ relativePath f +:+ ": " +:+ m) a'
  end.

Definition analyzeFiles (jsFiles : list file_entry) (a : analyzer) : analyzer :=
  fold_left analyzeFolder_step jsFiles a.

(* ===================================================================== *)
(** ** Report passes *)

(** *** Usage tiers *)

(** [Array.prototype.sort(compareFn)]: a stable sort; an element goes
    before a later one unless [compareFn] is positive on them. *)
Section ArraySort.
Context {A : Type} (compareFn : A -> A -> Z).

Fixpoint sort_insert (x : A) (l : list A) : list A :=
  match l with
  | [] => [x]
  | y :: r =>
      if (compareFn x y <=? 0)%Z then x :: y :: r else y :: sort_insert x r
  end.

Definition array_sort (l : list A) : list A := foldr sort_insert [] l.
End ArraySort.

Record usage_report := {
  unused : list func;
  singleUse : list (func * aggregate);
  sortedMultiUse : list (func * aggregate) }.

(** [callInfo ? callInfo.totalCalls : 0]. *)
Definition callCount (a : analyzer) (f : func) : nat :=
  match functionCalls a !! fn_name f with
  | Some callInfo => totalCalls callInfo
  | None => 0
  end.

Definition with_callInfo (a : analyzer) (keep : nat -> bool) (f : func)
  : option (func * aggregate) :=
  match functionCalls a !! fn_name f with
  | Some callInfo => if keep (totalCalls callInfo) then Some (f, callInfo) else None
  | None => None
  end.

Definition multiUse (a : analyzer) : list (func * aggregate) :=
  omap (with_callInfo a (fun c => negb (c =? 0)%nat && negb (c =? 1)%nat))
       (map snd (functions a)).

(** [(a, b) => b.callInfo.totalCalls - a.callInfo.totalCalls]. *)
Definition by_totalCalls (a b : func * aggregate) : Z :=
  (Z.of_nat (totalCalls (snd b)) - Z.of_nat (totalCalls (snd a)))%Z.

Definition generateUsageReport (a : analyzer) : usage_report :=
  {| unused := List.filter (fun f => (callCount a f =? 0)%nat) (map snd (functions a));
     singleUse := omap (with_callInfo a (fun c => (c =? 1)%nat)) (map snd (functions a));
     sortedMultiUse := array_sort by_totalCalls (multiUse a) |}.

(** *** Async validation *)

Inductive issue :=
| UnnecessaryAsync
| MissingAwait (sites : list caller)
| MissingAsync
| UnnecessaryAwait (sites : list caller).

Definition no_operations (f : func) : bool :=
  (List.length (awaitedOperations f) =? 0)%nat
  && (List.length (promiseOperations f) =? 0)%nat.

Definition call_issue (a : analyzer) (f : func) (keep : caller -> bool)
  (mk : list caller -> issue) : list issue :=
  match functionCalls a !! fn_name f with
  | Some callInfo =>
      let calls := List.filter keep (callers callInfo) in
      if (0 <? List.length calls)%nat then [mk calls] else []
  | None => []
  end.

Definition issues_for_function (a : analyzer) (f : func) : list issue :=
  if fn_async f
  then ((if no_operations f then [UnnecessaryAsync] else [])
        ++ call_issue a f (fun c => negb (awaited c)) MissingAwait)%list
  else ((if no_operations f then [] else [MissingAsync])
        ++ call_issue a f awaited UnnecessaryAwait)%list.

Definition generateAsyncValidationReport (a : analyzer)
  : list (func * list issue) :=
  List.filter (fun fi => (0 <? List.length (snd fi))%nat)
    (map (fun kf => (snd kf, issues_for_function a (snd kf))) (functions a)).

(** *** Function inventory *)

(** [if (!m.has(k)) m.set(k, []); m.get(k).push(v)] on an
    insertion-ordered [Map]. *)
Fixpoint group_push {K V} (eqb : K -> K -> bool) (k : K) (v : V)
  (m : list (K * list V)) : list (K * list V) :=
  match m with
  | [] => [(k, [v])]
  | (k', vs) :: r =>
      if eqb k' k then (k', (vs ++ [v])%list) :: r
      else (k', vs) :: group_push eqb k v r
  end.

Definition class_eqb (x y : option string) : bool :=
  match x, y with
  | Some s, Some t => String.eqb s t
  | None, None => true
  | _, _ => false
  end.

Record inventory_line := {
  il_async : bool; il_name : string; il_line : option nat; il_calls : nat }.

Definition byFile (a : analyzer) : list (string * list func) :=
  fold_left (fun m kf => group_push String.eqb (fn_file (snd kf)) (snd kf) m)
            (functions a) [].

Definition byClass (fs : list func) : list (option string * list func) :=
  fold_left (fun m f => group_push class_eqb (fn_class f) f m) fs [(None, [])].

Definition generateFunctionList (a : analyzer)
  : list (string * list (option string * list inventory_line)) :=
  map (fun ff =>
         (fst ff,
          map (fun cf =>
                 (fst cf,
                  map (fun f => {| il_async := fn_async f; il_name := fn_name f;
                                   il_line := fn_line f; il_calls := callCount a f |})
                      (snd cf)))
              (byClass (snd ff))))
      (List.filter (fun ff => (0 <? List.length (snd ff))%nat) (byFile a)).

(** *** Summary statistics *)

Inductive jsnum := Num (z : Z) | NaN | Infinity.

Section Summary.
(** [round_percent x y] stands for the double [Math.round((x / y) * 100)]
    at a non-zero [y]. *)
Variable round_percent : Z -> Z -> Z.

(** [Math.round((x / y) * 100)] for [x >= 0]: [0 / 0] is [NaN]. *)
Definition percentage (x y : Z) : jsnum :=
  if (y =? 0)%Z then (if (x =? 0)%Z then NaN else Infinity)
  else Num (round_percent x y).

Record summary := {
  trackableFunctions : Z;
  totalFunctions : Z;
  asyncFunctions : Z;
  asyncShare : jsnum;
  syncFunctions : Z;
  syncShare : jsnum;
  usageEfficiency : jsnum;
  wellUsed : Z;
  singleUseCount : Z;
  singleUseShare : jsnum;
  unusedCount : Z;
  unusedShare : jsnum }.

Definition generateSummary (a : analyzer) : summary :=
  let values := map snd (functions a) in
  let trackable := Z.of_nat (List.length (functions a)) in
  let asyncN := Z.of_nat (List.length (List.filter fn_async values)) in
  let syncN := (trackable - asyncN)%Z in
  let unusedN :=
    Z.of_nat (List.length (List.filter (fun f =>
      match functionCalls a !! fn_name f with
      | Some callInfo => (totalCalls callInfo =? 0)%nat
      | None => true
      end) values)) in
  let singleN :=
    Z.of_nat (List.length (List.filter (fun f =>
      match functionCalls a !! fn_name f with
      | Some callInfo => (totalCalls callInfo =? 1)%nat
      | None => false
      end) values)) in
  let wellN := (trackable - unusedN - singleN)%Z in
  {| trackableFunctions := trackable;
     totalFunctions := (trackable + Z.of_nat (skippedFunctionCount a))%Z;
     asyncFunctions := asyncN;
     asyncShare := percentage asyncN trackable;
     syncFunctions := syncN;
     syncShare := percentage syncN trackable;
     usageEfficiency :=
       if (0 <? trackable)%Z then percentage wellN trackable else Num 0;
     wellUsed := wellN;
     singleUseCount := singleN;
     singleUseShare := percentage singleN trackable;
     unusedCount := unusedN;
     unusedShare := percentage unusedN trackable |}.

(** *** A whole run *)

Record report := {
  warnings : list string;
  skipped : nat;
  inventory : list (string * list (option string * list inventory_line));
  asyncValidation : list (func * list issue);
  usage : usage_report;
  statistics : summary;
  reportFileName : string }.

(** [timestamp.replace(/[:.]/g, '-')]. *)
Fixpoint dashes (s : string) : string :=
  match s with
  | EmptyString => EmptyString
  | String c r =>
      String (if Ascii.eqb c ":" || Ascii.eqb c "." then "-"%char else c) (dashes r)
  end.

(** [analyzeFolder] on the enumerated files, [isoNow] being
    [new Date().toISOString()] when the report is written. *)
Definition analyzeFolder (isoNow : string) (jsFiles : list file_entry) : report :=
  let a := analyzeFiles jsFiles new_analyzer in
  {| warnings := errors a;
     skipped := skippedFunctionCount a;
     inventory := generateFunctionList a;
     asyncValidation := generateAsyncValidationReport a;
     usage := generateUsageReport a;
     statistics := generateSummary a;
     reportFileName :=
       "function-analysis-report-" +:+ substring 0 19 (dashes isoNow) +:+ ".txt" |}.
End Summary.

(* ===================================================================== *)
(** ** Manual file walk *)

(** What [fs.readdirSync] and [fs.statSync] give below a directory.
    [NoAccess] is a directory whose listing throws, [FsNoStat] an entry
    whose [statSync] throws, [FsOther] an entry that is neither a file
    nor a directory. *)
Inductive directory :=
| Listing (files : list fs_entry)
| NoAccess
with fs_entry :=
| FsFile (file : string)
| FsDir (file : string) (dir : directory)
| FsOther (file : string)
| FsNoStat (file : string).

(** [path.join(basePath, file)] for one path component. *)
Definition path_join (basePath file : string) : string :=
  if String.eqb basePath "" then file else basePath +:+ "/" +:+ file.

(** The suffix that starts at the last dot. *)
Fixpoint from_last_dot (s : string) : option string :=
  match s with
  | EmptyString => None
  | String c r =>
      match from_last_dot r with
      | Some e => Some e
      | None => if Ascii.eqb c "." then Some s else None
      end
  end.

(** [path.extname] on one path component: empty when the last dot is
    the first character, and for [".."]. *)
Definition extname (file : string) : string :=
  match file with
  | EmptyString => ""
  | String _ r =>
      match from_last_dot r with
      | Some e => if String.eqb file ".." then "" else e
      | None => ""
      end
  end.

Definition lower_ascii (c : ascii) : ascii :=
  if is_upper c then ascii_of_nat (nat_of_ascii c + 32) else c.

Fixpoint toLowerCase (s : string) : string :=
  match s with
  | EmptyString => EmptyString
  | String c r => String (lower_ascii c) (toLowerCase r)
  end.

Definition includes (l : list string) (x : string) : bool :=
  existsb (String.eqb x) l.

(** A [for ... of] loop whose body may throw. *)
Definition for_each {A S} (body : A -> S -> option S) : list A -> S -> option S :=
  fix loop (l : list A) (s : S) : option S :=
    match l with
    | [] => Some s
    | x :: r => match body x s with
                | Some s' => loop r s'
                | None => None
                end
    end.

(** [findJSFilesManually(dir, filesList, basePath)]: the list after the
    walk, or [None] when [readdirSync] or [statSync] throws. *)
Fixpoint findJSFilesManually (dir : directory) (filesList : list string)
  (basePath : string) {struct dir} : option (list string) :=
  match dir with
  | NoAccess => None
  | Listing files =>
      for_each
        (fun entry filesList =>
           match entry with
           | FsNoStat _ => None
           | FsDir file sub =>
               if includes ["node_modules"; "dist"; "build"; ".git"] file
               then Some filesList
               else findJSFilesManually sub filesList (path_join basePath file)
           | FsFile file =>
               if includes [".js"; ".jsx"; ".mjs"; ".ts"; ".tsx"]
                    (toLowerCase (extname file))
               then Some (filesList ++ [path_join basePath file])%list
               else Some filesList
           | FsOther _ => Some filesList
           end)
        files filesList
  end.

(* ===================================================================== *)
(** ** Specification vocabulary *)

(** [Map.prototype.get] on the declarations map. *)
Definition map_get {V} (k : string) (m : list (string * V)) : option V :=
  snd <$> List.find (fun kv => String.eqb (fst kv) k) m.

(** [below n d]: [d] lies strictly below [n] in the tree. *)
Inductive below (n : node) : node -> Prop :=
| below_child k c : In (k, c) (fields n) -> below n c
| below_deeper k c d : In (k, c) (fields n) -> below c d -> below n d.

(** The nodes of the body of [n] itself: below [n], and not inside a
    function-like node below [n]. *)
Fixpoint own_body (n : node) : list node :=
  match n with
  | Node _ _ fs =>
      (fix own_fields (l : list (string * node)) : list node :=
         match l with
         | [] => []
         | (_, c) :: r =>
             (c :: (if isFunction c then [] else own_body c) ++ own_fields r)%list
         end) fs
  end.

(** The suspension points of [n] when each one belongs to its nearest
    enclosing function-like node only. *)
Definition own_awaited (n : node) : list operation :=
  map (fun c => {| op_line := line c; code := "AwaitExpression" |})
      (List.filter isAwaitExpression (own_body n)).

(** The aggregate invariant. *)
Definition aggregate_invariant (a : analyzer) : Prop :=
  map_Forall (fun _ callInfo => totalCalls callInfo = List.length (callers callInfo))
             (functionCalls a).

(** The state of a run after the files [jsFiles] and [k] visitor calls
    into the tree [ast] of the next file. *)
Definition run_point (jsFiles : list file_entry) (file : string) (ast : node)
  (k : nat) : analyzer :=
  snd (fold_left (visit file) (take k (walk_children ast))
                 (None, analyzeFiles jsFiles new_analyzer)).

Definition has_char (c : ascii) : string -> bool :=
  fix has (s : string) : bool :=
    match s with
    | EmptyString => false
    | String c' r => Ascii.eqb c' c || has r
    end.

(** Names the parser can give an identifier hold no space and no
    bracket. *)
Definition identifier_name (s : string) : bool :=
  negb (has_char " " s) && negb (has_char "[" s).

Fixpoint identifiers_ok (n : node) : bool :=
  match n with
  | Node h _ fs =>
      match h with Identifier s => identifier_name s | _ => true end
      && (fix fields_ok (l : list (string * node)) : bool :=
            match l with
            | [] => true
            | (_, c) :: r => identifiers_ok c && fields_ok r
            end) fs
  end.

Definition parsed_ok (f : file_entry) : bool :=
  match content f with
  | Parsed ast | Interrupted ast _ _ => identifiers_ok ast
  | _ => true
  end.

(** A directory tree the manual walk gets through: every directory it
    enters can be listed and every entry it meets can be examined. *)
Definition excluded (file : string) : bool :=
  includes ["node_modules"; "dist"; "build"; ".git"] file.

Fixpoint walkable (dir : directory) : bool :=
  match dir with
  | NoAccess => false
  | Listing files =>
      (fix all (l : list fs_entry) : bool :=
         match l with
         | [] => true
         | FsNoStat _ :: _ => false
         | FsDir file sub :: r => (excluded file || walkable sub) && all r
         | _ :: r => all r
         end) files
  end.

(** The source files of a tree, by relative path, in listing order. *)
Fixpoint listed (dir : directory) (basePath : string) : list string :=
  match dir with
  | NoAccess => []
  | Listing files =>
      (fix each (l : list fs_entry) : list string :=
         match l with
         | [] => []
         | FsFile file :: r =>
             ((if includes [".js"; ".jsx"; ".mjs"; ".ts"; ".tsx"]
                    (toLowerCase (extname file))
               then [path_join basePath file] else []) ++ each r)%list
         | FsDir file sub :: r =>
             ((if excluded file then []
               else listed sub (path_join basePath file)) ++ each r)%list
         | _ :: r => each r
         end) files
  end.





(** [entering Q e]: the node that the visit [e] enters satisfies [Q]. *)
Definition entering (Q : node -> Prop) (e : event) : Prop :=
  match e with Enter n _ => Q n | Exit _ _ => True end.

Definition file_entering (Q : node -> Prop) (f : file_entry) : Prop :=
  match content f with
  | Parsed ast | Interrupted ast _ _ =>
      List.Forall (entering Q) (walk_children ast)
  | _ => True
  end.

(** Two analyzers that agree on everything but the recorded errors. *)
Definition same_graph (a b : analyzer) : Prop :=
  functions a = functions b
  /\ functionCalls a = functionCalls b
  /\ skippedFunctionCount a = skippedFunctionCount b.

(** The comparator of the usage report, for any count [key]. *)
Definition descending {A : Type} (key : A -> nat) (x y : A) : Z :=
  (Z.of_nat (key y) - Z.of_nat (key x))%Z.

(** Every aggregate that holds a call is keyed by an identifier name. *)
Definition callers_named (a : analyzer) : Prop :=
  map_Forall (fun x callInfo => identifier_name x = true \/ callInfo = empty_aggregate)
             (functionCalls a).

(** Every declaration's name has an aggregate. *)
Definition declared_aggregates (a : analyzer) : Prop :=
  forall id f, In (id, f) (functions a) -> is_Some (functionCalls a !! fn_name f).


(* ===================================================================== *)
(** ** Example programs *)

Definition ident (l : nat) (x : string) : node := Node (Identifier x) (Some l) [].

Definition call (l : nat) (callee : node) (args : list node) : node :=
  Node CallExpression (Some l) (("callee", callee) :: map (pair "arguments") args).

Definition member (l : nat) (object property : node) : node :=
  Node (MemberExpression false) (Some l)
       [("object", object); ("property", property)].

Definition block (l : nat) (body : list node) : node :=
  Node (OtherNode "BlockStatement") (Some l) (map (pair "body") body).

Definition statement (l : nat) (e : node) : node :=
  Node (OtherNode "ExpressionStatement") (Some l) [("expression", e)].

Definition await (l : nat) (e : node) : node :=
  Node AwaitExpression (Some l) [("argument", e)].

Definition const (l : nat) (x : string) (init : node) : node :=
  Node (OtherNode "VariableDeclaration") (Some l)
       [("declarations",
         Node VariableDeclarator (Some l) [("id", ident l x); ("init", init)])].

Definition function_declaration (l : nat) (async : bool) (x : string)
  (body : list node) : node :=
  Node (FunctionDeclaration async) (Some l)
       [("id", ident l x); ("body", block l body)].

Definition arrow (l : nat) (async : bool) (body : list node) : node :=
  Node (ArrowFunctionExpression async) (Some l) [("body", block l body)].

Definition program (body : list node) : node :=
  Node (OtherNode "File") (Some 1)
       [("program", Node (OtherNode "Program") (Some 1) (map (pair "body") body))].

(** [[
function outer() {
  const inner = async () => {
    await g();
  };
}
]] *)
Definition inner_arrow : node :=
  arrow 2 true [statement 3 (await 3 (call 3 (ident 3 "g") []))].

Definition outer_function : node :=
  function_declaration 1 false "outer" [const 2 "inner" inner_arrow].

Definition nested_js : file_entry :=
  {| relativePath := "nested.js"; content := Parsed (program [outer_function]) |}.

(** [const outer = function inner() {};] *)
Definition named_expression : node :=
  Node (FunctionExpression false) (Some 1)
       [("id", ident 1 "inner"); ("body", block 1 [])].

Definition outer_declarator : node :=
  Node VariableDeclarator (Some 1)
       [("id", ident 1 "outer"); ("init", named_expression)].

(** [const f = () => {};] *)
Definition f_declarator : node :=
  Node VariableDeclarator (Some 1) [("id", ident 1 "f"); ("init", arrow 1 false [])].

(** [[
function a() {}
function b() { a(); a(); }
]] *)
Definition ab_js : file_entry :=
  {| relativePath := "ab.js";
     content := Parsed (program
       [ function_declaration 1 false "a" [];
         function_declaration 2 false "b"
           [ statement 2 (call 2 (ident 2 "a") []);
             statement 2 (call 2 (ident 2 "a") []) ] ]) |}.

Definition broken_js : file_entry :=
  {| relativePath := "broken.js"; content := Malformed "Unexpected token (1:9)" |}.

(** A class body as the parser gives it: the methods are function-like
    nodes themselves, children of the [ClassBody]. *)
Definition class_declaration (l : nat) (x : string) (members : list node) : node :=
  Node ClassDeclaration (Some l)
       [("id", ident l x);
        ("body", Node (OtherNode "ClassBody") (Some l) (map (pair "body") members))].

Definition class_method (l : nat) (kind : method_kind) (key : string)
  (body : list node) : node :=
  Node (ClassMethod kind false false) (Some l)
       [("key", ident l key); ("body", block l body)].

(** [[
class Sheet {
  constructor() { this.load(); }
  get size() {}
}
size();
]] *)
Definition sheet_class : node :=
  class_declaration 1 "Sheet"
    [ class_method 2 KConstructor "constructor"
        [statement 2 (call 2 (member 2 (Node (OtherNode "ThisExpression") (Some 2) [])
                                       (ident 2 "load")) [])];
      class_method 3 KGet "size" [] ].

Definition sheet_js : file_entry :=
  {| relativePath := "sheet.js";
     content := Parsed (program
       [sheet_class; statement 5 (call 5 (ident 5 "size") [])]) |}.

(** The class body of [sheet.js] and its two methods. *)
Definition sheet_constructor : node :=
  class_method 2 KConstructor "constructor"
    [statement 2 (call 2 (member 2 (Node (OtherNode "ThisExpression") (Some 2) [])
                                   (ident 2 "load")) [])].

Definition sheet_getter : node := class_method 3 KGet "size" [].

Definition sheet_body : node :=
  Node (OtherNode "ClassBody") (Some 1)
       [("body", sheet_constructor); ("body", sheet_getter)].

(** [[
const o = { 'get size': function () {} };
size();
]] *)
Definition keyed_js : file_entry :=
  {| relativePath := "keyed.js";
     content := Parsed (program
       [ const 1 "o"
           (Node (OtherNode "ObjectExpression") (Some 1)
              [("properties",
                Node (ObjectProperty false) (Some 1)
                  [("key", Node (StringLiteral "get size") (Some 1) []);
                   ("value", Node (FunctionExpression false) (Some 1)
                                  [("body", block 1 [])])])]);
         statement 2 (call 2 (ident 2 "size") []) ]) |}.

(** [[
function lo() {}
function hi() {}
lo(); hi(); lo(); hi(); hi();
]] *)
Definition hilo_js : file_entry :=
  {| relativePath := "hilo.js";
     content := Parsed (program
       [ function_declaration 1 false "lo" [];
         function_declaration 2 false "hi" [];
         statement 3 (call 3 (ident 3 "lo") []);
         statement 3 (call 3 (ident 3 "hi") []);
         statement 3 (call 3 (ident 3 "lo") []);
         statement 3 (call 3 (ident 3 "hi") []);
         statement 3 (call 3 (ident 3 "hi") []) ]) |}.

(** A file that parses and whose traversal throws before the first
    visit of the analyzer: the stack overflows on an expression nested
    too deep (only the statement [before();] is kept here). *)
Definition deep_js : file_entry :=
  {| relativePath := "p.js";
     content := Interrupted
       (program [statement 1 (call 1 (ident 1 "before") [])])
       0 "Maximum call stack size exceeded" |}.

(** A tree with one source file and one directory that cannot be listed. *)
Definition locked_tree : directory :=
  Listing [FsFile "a.js"; FsDir "locked" NoAccess; FsFile "b.ts"].

Definition open_tree : directory :=
  Listing [ FsFile "a.js";
            FsDir "node_modules" NoAccess;
            FsDir "lib" (Listing [FsFile "util.MJS"; FsFile ".js"; FsFile "notes.md"]);
            FsFile "b.ts" ].

(* ===================================================================== *)
(** ** Further report passes *)

(** [countAsyncIssues]. *)
Definition countAsyncIssues (a : analyzer) : nat :=
  fold_left
    (fun count kf =>
       let f := snd kf in
       let count := if fn_async f && no_operations f then S count else count in
       let count :=
         if negb (fn_async f) && negb (no_operations f) then S count else count in
       match functionCalls a !! fn_name f with
       | Some callInfo =>
           if fn_async f
           then count + List.length (List.filter (fun c => negb (awaited c))
                                                 (callers callInfo))
           else count + List.length (List.filter awaited (callers callInfo))
       | None => count
       end)
    (functions a) 0.

(** The number of report lines one issue pushes to [issues_for_function]:
    the heading and the hint, and the list of call sites between them. *)
Definition issue_lines (i : issue) : nat :=
  match i with
  | UnnecessaryAsync | MissingAsync => 2
  | MissingAwait _ | UnnecessaryAwait _ => 3
  end.

(** The [issues] counter of [generateAsyncValidationReport]. *)
Definition asyncIssueTotal (a : analyzer) : nat :=
  list_sum (map (fun fi => list_sum (map issue_lines (snd fi)))
                (generateAsyncValidationReport a)).

Inductive recommendation :=
| CleanupPriority (unusedCount : nat)
| RefactoringOpportunity (singleUseCount : nat)
| AsyncImprovements (asyncIssues : nat)
| ExcellentCodebase.

Definition unused_declarations (a : analyzer) : list func :=
  List.filter (fun f =>
                 match functionCalls a !! fn_name f with
                 | Some callInfo => (totalCalls callInfo =? 0)%nat
                 | None => true
                 end) (map snd (functions a)).

Definition singleUse_declarations (a : analyzer) : list func :=
  List.filter (fun f =>
                 match functionCalls a !! fn_name f with
                 | Some callInfo => (totalCalls callInfo =? 1)%nat
                 | None => false
                 end) (map snd (functions a)).

(** [generateRecommendations]: the blocks it prints, in order. *)
Definition generateRecommendations (a : analyzer) : list recommendation :=
  let unusedN := List.length (unused_declarations a) in
  let singleN := List.length (singleUse_declarations a) in
  let asyncIssues := countAsyncIssues a in
  ((if (0 <? unusedN)%nat then [CleanupPriority unusedN] else [])
   ++ (if (5 <? singleN)%nat then [RefactoringOpportunity singleN] else [])
   ++ (if (0 <? asyncIssues)%nat then [AsyncImprovements asyncIssues] else [])
   ++ (if (unusedN =? 0)%nat && (singleN <? 5)%nat && (asyncIssues =? 0)%nat
       then [ExcellentCodebase] else []))%list.

(* ===================================================================== *)
(** ** Further specification vocabulary *)

(** The callers recorded under a name, none when the name is unknown. *)
Definition callers_of (x : string) (a : analyzer) : list caller :=
  match functionCalls a !! x with
  | Some callInfo => callers callInfo
  | None => []
  end.

(** A call expression that resolves to the name [x]. *)
Definition names_call (x : string) (n : node) : bool :=
  isCallExpression n
  && match getCallName n with
     | Some y => String.eqb y x
     | None => false
     end.

(** The call record of a call expression met on the path [cp]. *)
Definition site_of (file : string) (cp : node * node) : caller :=
  {| c_file := file; c_line := line (fst cp); awaited := isAwaitExpression (snd cp) |}.

(** The call sites of [x] that the traversal of one file visits, in
    visiting order: all of the file, or those met before the traversal
    throws. *)
Definition call_sites (x : string) (f : file_entry) : list caller :=
  match content f with
  | Parsed ast =>
      map (site_of (relativePath f))
          (List.filter (fun cp => names_call x (fst cp)) (descendants ast))
  | Interrupted ast visits _ =>
      map (site_of (relativePath f))
          (List.filter (fun cp => names_call x (fst cp))
                       (entered (take visits (walk_children ast))))
  | _ => []
  end.

(** The function-like nodes of one file. *)
Definition function_nodes (f : file_entry) : nat :=
  match content f with
  | Parsed ast | Interrupted ast _ _ =>
      List.length (List.filter (fun cp => isFunction (fst cp)) (descendants ast))
  | _ => 0
  end.

(** What the summary prints as total: skipped plus trackable. *)
Definition accounted (a : analyzer) : nat :=
  skippedFunctionCount a + List.length (functions a).

(** The declarations map has one entry per key, and every key is the
    identity of its declaration. *)
Definition keyed_by_identity (a : analyzer) : Prop :=
  NoDup (map fst (functions a))
  /\ forall id f, In (id, f) (functions a) ->
                  id = functionId (fn_file f) (fn_name f) (fn_line f).

Definition inventory_line_of (a : analyzer) (f : func) : inventory_line :=
  {| il_async := fn_async f; il_name := fn_name f; il_line := fn_line f;
     il_calls := callCount a f |}.

(** What one declaration adds to [countAsyncIssues]. *)
Definition issue_weight (a : analyzer) (f : func) : nat :=
  (if fn_async f && no_operations f then 1 else 0)
  + (if negb (fn_async f) && negb (no_operations f) then 1 else 0)
  + match functionCalls a !! fn_name f with
    | Some callInfo =>
        if fn_async f
        then List.length (List.filter (fun c => negb (awaited c)) (callers callInfo))
        else List.length (List.filter awaited (callers callInfo))
    | None => 0
    end.

(** The lines of an inventory, file after file, class after class. *)
Definition inventory_lines
  (inv : list (string * list (option string * list inventory_line)))
  : list inventory_line :=
  flat_map (fun ff => flat_map snd (snd ff)) inv.

(** Groups keyed by file: one group per file of [l], each holding the
    elements of [l] of that file, in order. *)
Definition grouped_by_file (m : list (string * list func)) (l : list func) : Prop :=
  NoDup (map fst m)
  /\ (forall F, In F (map fst m) <-> In F (map fn_file l))
  /\ (forall F fs, In (F, fs) m ->
        fs = List.filter (fun f => String.eqb (fn_file f) F) l).

(** A path that ends, case-insensitively, with one of the source
    extensions. *)
Definition source_path (p : string) : Prop :=
  exists e, In e [".js"; ".jsx"; ".mjs"; ".ts"; ".tsx"]
            /\ ends_with e (toLowerCase p) = true.

(* ===================================================================== *)
(** ** The CSS rule extractor *)

(** A JavaScript string as its UTF-16 code units. *)
Definition jsstring := list N.

(** White space and line terminators of ECMAScript, what [trim] removes. *)
Definition is_space (c : N) : bool :=
  existsb (N.eqb c)
    [9; 10; 11; 12; 13; 32; 160; 5760; 8192; 8193; 8194; 8195; 8196; 8197;
     8198; 8199; 8200; 8201; 8202; 8232; 8233; 8239; 8287; 12288; 65279]%N.

Fixpoint trimStart (s : jsstring) : jsstring :=
  match s with
  | c :: r => if is_space c then trimStart r else s
  | [] => []
  end.

Definition trimEnd (s : jsstring) : jsstring := rev (trimStart (rev s)).

Definition trim (s : jsstring) : jsstring := trimEnd (trimStart s).

(** The variables of the loop of [splitIntoRules]. *)
Record splitter := {
  rules : list jsstring;
  currentRule : jsstring;
  braceCount : Z;
  inString : bool;
  stringChar : option N }.

Definition new_splitter : splitter :=
  {| rules := []; currentRule := []; braceCount := 0; inString := false;
     stringChar := None |}.

Definition is_quote (c : N) : bool := (c =? 34)%N || (c =? 39)%N.

Definition is_backslash (prevChar : option N) : bool :=
  match prevChar with Some c => (c =? 92)%N | None => false end.

Definition same_char (stringChar : option N) (c : N) : bool :=
  match stringChar with Some q => (q =? c)%N | None => false end.

(** One iteration: [prevChar] is absent at the first character. *)
Definition split_step (st : splitter) (prevChar : option N) (char : N) : splitter :=
  let quoted := is_quote char && negb (is_backslash prevChar) in
  let inString' :=
    if quoted
    then (if negb (inString st) then true
          else if same_char (stringChar st) char then false else inString st)
    else inString st in
  let stringChar' :=
    if quoted && negb (inString st) then Some char else stringChar st in
  let current := (currentRule st ++ [char])%list in
  if inString'
  then {| rules := rules st; currentRule := current; braceCount := braceCount st;
          inString := inString'; stringChar := stringChar' |}
  else if (char =? 123)%N
  then {| rules := rules st; currentRule := current;
          braceCount := (braceCount st + 1)%Z;
          inString := inString'; stringChar := stringChar' |}
  else if (char =? 125)%N
  then if (braceCount st - 1 =? 0)%Z
       then {| rules := (rules st ++ [current])%list; currentRule := [];
               braceCount := (braceCount st - 1)%Z;
               inString := inString'; stringChar := stringChar' |}
       else {| rules := rules st; currentRule := current;
               braceCount := (braceCount st - 1)%Z;
               inString := inString'; stringChar := stringChar' |}
  else {| rules := rules st; currentRule := current; braceCount := braceCount st;
          inString := inString'; stringChar := stringChar' |}.

Fixpoint split_loop (st : splitter) (prevChar : option N) (cssContent : jsstring)
  : splitter :=
  match cssContent with
  | [] => st
  | char :: rest => split_loop (split_step st prevChar char) (Some char) rest
  end.

(** [if (currentRule.trim()) rules.push(currentRule)]. *)
Definition split_finish (st : splitter) : list jsstring :=
  match trim (currentRule st) with
  | [] => rules st
  | _ => (rules st ++ [currentRule st])%list
  end.

Definition splitIntoRules (cssContent : jsstring) : list jsstring :=
  split_finish (split_loop new_splitter None cssContent).

(** The code units of an ASCII string. *)
Fixpoint units (s : string) : jsstring :=
  match s with
  | EmptyString => []
  | String c r => N_of_ascii c :: units r
  end.

(** Two splitter states that go on alike: the same but for rules
    already pushed and for a string delimiter that is not in use. *)
Definition split_related (pushed : list jsstring) (st1 st2 : splitter) : Prop :=
  rules st1 = (pushed ++ rules st2)%list
  /\ currentRule st1 = currentRule st2
  /\ braceCount st1 = braceCount st2
  /\ inString st1 = inString st2
  /\ (inString st2 = true -> stringChar st1 = stringChar st2).

(** The state of the loop after the whole of [cssContent]. *)
Definition split_all (cssContent : jsstring) : splitter :=
  split_loop new_splitter None cssContent.

(** [\w] and [[\w-]] on a code unit. *)
Definition is_word (c : N) : bool :=
  ((48 <=? c) && (c <=? 57) || (65 <=? c) && (c <=? 90)
   || (97 <=? c) && (c <=? 122) || (c =? 95))%N.

Definition word_or_hyphen (c : N) : bool := is_word c || (c =? 45)%N.

(** What is left of [s] after the prefix [p]. *)
Fixpoint strip_prefix (p s : jsstring) : option jsstring :=
  match p, s with
  | [], _ => Some s
  | a :: p', b :: s' => if (a =? b)%N then strip_prefix p' s' else None
  | _ :: _, [] => None
  end.

(** The pattern [lit(?![\w-])] matched at the start of [s], [lit] being
    matched literally (what [escapeRegex] makes of it). *)
Definition literal_here (lit s : jsstring) : bool :=
  match strip_prefix lit s with
  | Some [] => true
  | Some (c :: _) => negb (word_or_hyphen c)
  | None => false
  end.

(** [new RegExp(lit + '(?![\\w-])').test(s)]: a match at some position. *)
Fixpoint test_literal (lit s : jsstring) : bool :=
  literal_here lit s
  || match s with
     | [] => false
     | _ :: r => test_literal lit r
     end.

(** [new RegExp('\\b' + lit + '(?![\\w-])').test(s)] for a [lit] that
    starts with a letter: the match starts the string or follows a
    character that is not a word character. *)
Fixpoint test_word (lit s : jsstring) (after_word : bool) : bool :=
  negb after_word && literal_here lit s
  || match s with
     | [] => false
     | c :: r => test_word lit r (is_word c)
     end.

(** [selector.includes(target)]. *)
Fixpoint includes_text (target s : jsstring) : bool :=
  match strip_prefix target s with
  | Some _ => true
  | None => match s with
            | [] => false
            | _ :: r => includes_text target r
            end
  end.

Definition is_letter (c : N) : bool :=
  ((65 <=? c) && (c <=? 90) || (97 <=? c) && (c <=? 122))%N.

Definition is_alphanumeric (c : N) : bool :=
  is_letter c || ((48 <=? c) && (c <=? 57))%N.

(** [/^[a-zA-Z][a-zA-Z0-9]*$/.test(target)]. *)
Definition is_element_name (target : jsstring) : bool :=
  match target with
  | c :: r => is_letter c && forallb is_alphanumeric r
  | [] => false
  end.

Definition text_eqb (s t : jsstring) : bool :=
  (List.length s =? List.length t)%nat && forallb (fun cd => (fst cd =? snd cd)%N) (combine s t).

Definition selectorMatches (selector target : jsstring) : bool :=
  if text_eqb selector target then true
  else
    match target with
    | 46%N :: _ | 35%N :: _ => test_literal target selector
    | _ =>
        if is_element_name target then test_word target selector false
        else includes_text target selector
    end.

(** A selector in which [target] stands at a place where no word
    character and no hyphen follows it. *)
Definition stands_in (target selector : jsstring) : Prop :=
  exists before after,
    selector = (before ++ target ++ after)%list
    /\ match after with
       | [] => True
       | c :: _ => word_or_hyphen c = false
       end.

(** The warning a file leaves when reading it, parsing it or traversing
    it throws. *)
Definition failure_message (f : file_entry) : list string :=
  match content f with
  | Unreadable m => ["Error analyzing " +:+ relativePath f +:+ ": " +:+ m]
  | Malformed m =>
      ["Error analyzing " +:+ relativePath f +:+ ": Parse error: " +:+ m]
  | Parsed _ => []
  | Interrupted _ _ m => ["Error analyzing " +:+ relativePath f +:+ ": " +:+ m]
  end.

(* ===================================================================== *)
(** ** Trees and traversal *)

Lemma node_induction (P : node -> Prop) :
  (forall h l fs, Forall (fun kc => P (snd kc)) fs -> P (Node h l fs)) ->
  forall n, P n.
Proof.
  intros step.
  fix IH 1.
  intros [h l fs]. apply step.
  induction fs as [|[k c] r IHr]; constructor; [apply IH | exact IHr].
Qed.

Lemma walk_fields_flat_map (p : node) (fs : list (string * node)) :
  (fix walk_fields (l : list (string * node)) : list event :=
     match l with
     | [] => []
     | (_, c) :: r => (walk p c ++ walk_fields r)%list
     end) fs = flat_map (fun kc => walk p (snd kc)) fs.
Proof.
  induction fs as [|[k c] r IHr]; simpl; [reflexivity | now rewrite IHr].
Qed.

Lemma walk_unfold parent n :
  walk parent n = (Enter n parent :: walk_children n ++ [Exit n parent])%list.
Proof.
  destruct n as [h l fs]. unfold walk_children. simpl.
  now rewrite walk_fields_flat_map.
Qed.

Lemma entered_app l1 l2 : entered (l1 ++ l2) = (entered l1 ++ entered l2)%list.
Proof. apply omap_app. Qed.

Lemma entered_walk parent n : entered (walk parent n) = (n, parent) :: descendants n.
Proof.
  rewrite walk_unfold. unfold descendants. simpl.
  rewrite entered_app. simpl. now rewrite app_nil_r.
Qed.

Lemma descendants_unfold n :
  descendants n = flat_map (fun kc => (snd kc, n) :: descendants (snd kc)) (fields n).
Proof.
  unfold descendants at 1, walk_children.
  induction (fields n) as [|[k c] r IHr]; simpl; [reflexivity|].
  now rewrite entered_app, entered_walk, IHr.
Qed.

Lemma descendants_below n : forall d q, In (d, q) (descendants n) -> below n d.
Proof.
  induction n as [h l fs IH] using node_induction.
  intros d q. rewrite descendants_unfold. simpl. rewrite in_flat_map.
  intros [[k c] [Hin [Heq | Hd]]]; simpl in *.
  - inversion Heq; subst. eapply below_child. simpl. exact Hin.
  - eapply below_deeper; [exact Hin|].
    rewrite List.Forall_forall in IH. exact (IH _ Hin _ _ Hd).
Qed.

Lemma below_descendants n d : below n d -> exists q, In (d, q) (descendants n).
Proof.
  induction 1 as [n k c Hin | n k c d Hin _ [q IH]].
  - exists n. rewrite descendants_unfold, in_flat_map.
    exists (k, c). split; [exact Hin | now left].
  - exists q. rewrite descendants_unfold, in_flat_map.
    exists (k, c). split; [exact Hin | now right].
Qed.

(* ===================================================================== *)
(** ** Suspension points of a declaration *)

Lemma map_get_map_set {V} k (v : V) m : map_get k (map_set k v m) = Some v.
Proof.
  unfold map_get. induction m as [|[k' v'] r IH]; simpl.
  - now rewrite String.eqb_refl.
  - destruct (String.eqb k' k) eqn:E; simpl.
    + now rewrite String.eqb_refl.
    + now rewrite E.
Qed.

Lemma collect_awaited_spec n op :
  In op (collect_awaited n) <->
  exists d, below n d /\ isAwaitExpression d = true
            /\ op = {| op_line := line d; code := "AwaitExpression" |}.
Proof.
  unfold collect_awaited. rewrite in_map_iff. split.
  - intros [[d q] [<- Hin]]. apply filter_In in Hin as [Hin Hd].
    exists d. eauto using descendants_below.
  - intros (d & Hb & Hd & ->). destruct (below_descendants _ _ Hb) as [q Hq].
    exists (d, q). split; [reflexivity|]. apply filter_In. now split.
Qed.

Lemma collect_promise_spec n op :
  In op (collect_promise n) <->
  exists d, below n d /\ isCallExpression d = true /\ isPromiseOperation d = true
            /\ op = {| op_line := line d; code := "CallExpression" |}.
Proof.
  unfold collect_promise. rewrite in_map_iff. split.
  - intros [[d q] [<- Hin]]. apply filter_In in Hin as [Hin Hd].
    apply andb_true_iff in Hd as [Hc Hp].
    exists d. eauto 6 using descendants_below.
  - intros (d & Hb & Hc & Hp & ->). destruct (below_descendants _ _ Hb) as [q Hq].
    exists (d, q). split; [reflexivity|]. apply filter_In. split; [exact Hq|].
    simpl. now rewrite Hc, Hp.
Qed.

(** C1, as stated, fails: in [nested.js] the [await] of line 3 lies in
    the body of the nested arrow function [inner], yet it is recorded
    among the suspension points of the enclosing declaration [outer]. *)
Lemma nested_await_recorded_for_outer :
  own_awaited inner_arrow = [{| op_line := Some 3; code := "AwaitExpression" |}]
  /\ own_awaited outer_function = []
  /\ exists f,
       map_get "nested.js:outer:1"
               (functions (analyzeFiles [nested_js] new_analyzer)) = Some f
       /\ ~ (forall op, In op (awaitedOperations f) ->
                        In op (own_awaited outer_function)).
Proof.
  split; [reflexivity|]. split; [reflexivity|].
  eexists. split; [vm_compute; reflexivity|].
  intros H. specialize (H _ (or_introl eq_refl)). vm_compute in H. exact H.
Qed.

(** C1, amended: the suspension points recorded for a tracked
    declaration are exactly the await expressions and the promise
    operations that lie anywhere below the declaration's node, those
    inside nested function-like nodes included. *)
Theorem suspension_points_below_declaration n parent file className a :
  shouldTrack (getFunctionInfo n parent) = true ->
  isBlacklistedFunction (info_name (getFunctionInfo n parent)) = false ->
  exists f,
    map_get (functionId file (info_name (getFunctionInfo n parent)) (line n))
            (functions (analyzeFunction n parent file className a)) = Some f
    /\ (forall op, In op (awaitedOperations f) <->
          exists d, below n d /\ isAwaitExpression d = true
                    /\ op = {| op_line := line d; code := "AwaitExpression" |})
    /\ (forall op, In op (promiseOperations f) <->
          exists d, below n d /\ isCallExpression d = true
                    /\ isPromiseOperation d = true
                    /\ op = {| op_line := line d; code := "CallExpression" |}).
Proof.
  intros Ht Hb. unfold analyzeFunction. rewrite Ht, Hb. simpl.
  eexists. split; [apply map_get_map_set|]. simpl.
  split; intros op; [apply collect_awaited_spec | apply collect_promise_spec].
Qed.

Lemma suspension_points_below_declaration_witness :
  exists f,
    map_get "nested.js:outer:1"
            (functions (analyzeFunction outer_function (program [outer_function])
                          "nested.js" None new_analyzer)) = Some f
    /\ (forall op, In op (awaitedOperations f) <->
          exists d, below outer_function d /\ isAwaitExpression d = true
                    /\ op = {| op_line := line d; code := "AwaitExpression" |})
    /\ (forall op, In op (promiseOperations f) <->
          exists d, below outer_function d /\ isCallExpression d = true
                    /\ isPromiseOperation d = true
                    /\ op = {| op_line := line d; code := "CallExpression" |}).
Proof.
  apply (suspension_points_below_declaration outer_function
           (program [outer_function]) "nested.js" None new_analyzer);
    reflexivity.
Defined.

(* ===================================================================== *)
(** ** Summary statistics *)

(** C2: with no trackable function the usage efficiency is reported as
    0, but the async, sync, single-use and unused shares are computed
    without the guard and come out as [NaN]. *)
Theorem summary_without_functions round_percent a :
  functions a = [] ->
  usageEfficiency (generateSummary round_percent a) = Num 0
  /\ asyncShare (generateSummary round_percent a) = NaN
  /\ syncShare (generateSummary round_percent a) = NaN
  /\ singleUseShare (generateSummary round_percent a) = NaN
  /\ unusedShare (generateSummary round_percent a) = NaN.
Proof.
  intros H. unfold generateSummary. rewrite H. simpl. repeat split.
Qed.

Lemma summary_without_functions_witness :
  usageEfficiency (generateSummary Z.div (analyzeFiles [broken_js] new_analyzer)) = Num 0
  /\ asyncShare (generateSummary Z.div (analyzeFiles [broken_js] new_analyzer)) = NaN
  /\ syncShare (generateSummary Z.div (analyzeFiles [broken_js] new_analyzer)) = NaN
  /\ singleUseShare (generateSummary Z.div (analyzeFiles [broken_js] new_analyzer)) = NaN
  /\ unusedShare (generateSummary Z.div (analyzeFiles [broken_js] new_analyzer)) = NaN.
Proof.
  apply (summary_without_functions Z.div (analyzeFiles [broken_js] new_analyzer)).
  reflexivity.
Defined.

(* ===================================================================== *)
(** ** Classifier: functions bound to a variable *)

(** C3, as stated, fails: in [const outer = function inner() {}] the
    function expression is the initializer of a declarator that binds
    the identifier [outer], and the classifier names it [inner]. *)
Lemma named_expression_keeps_own_name :
  head named_expression = FunctionExpression false
  /\ head outer_declarator = VariableDeclarator
  /\ field "id" outer_declarator = Some (ident 1 "outer")
  /\ info_name (getFunctionInfo named_expression outer_declarator) <> "outer".
Proof. repeat split. vm_compute. discriminate. Qed.

(** C3, amended: a function expression or arrow function whose parent is
    a variable declarator binding an identifier is tracked; its name is
    the binding identifier's name when it has no name of its own, and
    its own name otherwise. *)
Theorem variable_binding_name n parent x l fs :
  (exists a, head n = FunctionExpression a \/ head n = ArrowFunctionExpression a) ->
  head parent = VariableDeclarator ->
  field "id" parent = Some (Node (Identifier x) l fs) ->
  getFunctionInfo n parent =
    {| info_name := default x (own_name n); shouldTrack := true |}.
Proof.
  intros [a Hn] Hp Hid. unfold getFunctionInfo.
  destruct (own_name n) as [y|]; [reflexivity|]. simpl.
  rewrite Hp. unfold expression_info. rewrite Hp, Hid.
  destruct Hn as [-> | ->]; reflexivity.
Qed.

Lemma variable_binding_name_witness :
  getFunctionInfo (arrow 1 false []) f_declarator =
    {| info_name := "f"; shouldTrack := true |}
  /\ getFunctionInfo named_expression outer_declarator =
    {| info_name := "inner"; shouldTrack := true |}.
Proof.
  split.
  - apply (variable_binding_name (arrow 1 false []) f_declarator "f" (Some 1) []);
      [exists false; right; reflexivity | reflexivity | reflexivity].
  - apply (variable_binding_name named_expression outer_declarator "outer" (Some 1) []);
      [exists false; left; reflexivity | reflexivity | reflexivity].
Defined.

(* ===================================================================== *)
(** ** Invariants of a run *)

Section RunInvariant.
Variable Q : node -> Prop.
Variable P : analyzer -> Prop.
Hypothesis P_function :
  forall n parent file className a, P a -> P (analyzeFunction n parent file className a).
Hypothesis P_call :
  forall n parent file a, Q n -> P a -> P (analyzeCall n parent file a).
Hypothesis P_error : forall m a, P a -> P (push_error m a).

Lemma visit_invariant file st e :
  entering Q e -> P (snd st) -> P (snd (visit file st e)).
Proof.
  destruct st as [c a], e as [n p | n p]; simpl; intros Hq Ha.
  - destruct (isClassDeclaration n); [exact Ha|].
    destruct (isFunction n); [now apply P_function|].
    destruct (isCallExpression n); [now apply P_call | exact Ha].
  - now destruct (isClassDeclaration n).
Qed.

Lemma visits_invariant file evs : forall st,
  List.Forall (entering Q) evs -> P (snd st) ->
  P (snd (fold_left (visit file) evs st)).
Proof.
  induction evs as [|e r IH]; intros st Hq Ha; simpl; [exact Ha|].
  inversion Hq; subst. apply IH; [assumption|]. now apply visit_invariant.
Qed.

Lemma analyzeFolder_step_invariant a f :
  file_entering Q f -> P a -> P (analyzeFolder_step a f).
Proof.
  unfold file_entering, analyzeFolder_step, analyzeFile. intros Hq Ha.
  destruct (content f) as [m | m | ast | ast k m].
  - now apply (P_error _ a).
  - now apply (P_error _ a).
  - now apply visits_invariant.
  - apply P_error. apply visits_invariant; [|exact Ha]. now apply Forall_take.
Qed.

Lemma analyzeFiles_invariant jsFiles : forall a,
  List.Forall (file_entering Q) jsFiles -> P a -> P (analyzeFiles jsFiles a).
Proof.
  unfold analyzeFiles.
  induction jsFiles as [|f r IH]; intros a Hq Ha; simpl; [exact Ha|].
  inversion Hq; subst. apply IH; [assumption|].
  now apply analyzeFolder_step_invariant.
Qed.
End RunInvariant.

Lemma entering_True evs : List.Forall (entering (fun _ => True)) evs.
Proof. apply List.Forall_forall. now intros [n p | n p] _. Qed.

Lemma files_entering_True jsFiles :
  List.Forall (file_entering (fun _ => True)) jsFiles.
Proof.
  apply List.Forall_forall. intros f _. unfold file_entering.
  destruct (content f); auto using entering_True.
Qed.

(* ===================================================================== *)
(** ** The aggregate invariant *)

Lemma ensure_aggregate_invariant x (m : gmap string aggregate) :
  map_Forall (fun _ c => totalCalls c = List.length (callers c)) m ->
  map_Forall (fun _ c => totalCalls c = List.length (callers c))
             (ensure_aggregate x m).
Proof.
  intros H. unfold ensure_aggregate. destruct (m !! x); [exact H|].
  apply map_Forall_insert_2; [reflexivity | exact H].
Qed.

Lemma analyzeFunction_aggregates n parent file className a :
  aggregate_invariant a ->
  aggregate_invariant (analyzeFunction n parent file className a).
Proof.
  unfold aggregate_invariant, analyzeFunction. intros H.
  destruct (negb _); [exact H|]. destruct (isBlacklistedFunction _); [exact H|].
  simpl. now apply ensure_aggregate_invariant.
Qed.

Lemma analyzeCall_aggregates n parent file a :
  aggregate_invariant a -> aggregate_invariant (analyzeCall n parent file a).
Proof.
  unfold aggregate_invariant, analyzeCall. intros H.
  destruct (getCallName n) as [x|]; [|exact H].
  destruct x as [|c x]; [exact H|]. simpl.
  pose proof (ensure_aggregate_invariant (String c x) _ H) as He.
  apply map_Forall_insert_2; [|exact He]. simpl.
  rewrite length_app. simpl.
  destruct (ensure_aggregate (String c x) (functionCalls a) !! String c x)
    as [ci|] eqn:E; simpl.
  - rewrite (He _ _ E). lia.
  - reflexivity.
Qed.

Lemma push_error_aggregates m a :
  aggregate_invariant a -> aggregate_invariant (push_error m a).
Proof. exact id. Qed.

(** C4: at every point of a run (after any number of whole files and
    any number of visitor calls into the next one) and after the whole
    run, every call aggregate has [totalCalls] equal to the length of
    its [callers]. *)
Theorem totalCalls_is_callers_length jsFiles file ast k :
  aggregate_invariant (analyzeFiles jsFiles new_analyzer)
  /\ aggregate_invariant (run_point jsFiles file ast k).
Proof.
  assert (aggregate_invariant (analyzeFiles jsFiles new_analyzer)) as H.
  { apply (analyzeFiles_invariant (fun _ => True));
      auto using analyzeFunction_aggregates, analyzeCall_aggregates,
                 push_error_aggregates, files_entering_True.
    apply map_Forall_empty. }
  split; [exact H|]. unfold run_point.
  apply (visits_invariant (fun _ => True));
    auto using analyzeFunction_aggregates, analyzeCall_aggregates,
               entering_True.
Qed.

(* ===================================================================== *)
(** ** Files that fail to parse *)

Lemma visit_same_graph file c a b e :
  same_graph a b ->
  fst (visit file (c, a) e) = fst (visit file (c, b) e)
  /\ same_graph (snd (visit file (c, a) e)) (snd (visit file (c, b) e)).
Proof.
  intros (Hf & Hc & Hs). unfold same_graph.
  destruct e as [n p | n p]; simpl.
  - destruct (isClassDeclaration n); [now simpl|].
    destruct (isFunction n); simpl.
    { unfold analyzeFunction, skip.
      destruct (negb _); [now simpl; rewrite Hs|].
      destruct (isBlacklistedFunction _); simpl; now rewrite ?Hf, ?Hc, ?Hs. }
    destruct (isCallExpression n); simpl; [|now idtac].
    unfold analyzeCall. destruct (getCallName n) as [[|ch x]|]; simpl;
      now rewrite ?Hf, ?Hc, ?Hs.
  - now destruct (isClassDeclaration n).
Qed.

Lemma visits_same_graph file evs : forall c a b,
  same_graph a b ->
  same_graph (snd (fold_left (visit file) evs (c, a)))
             (snd (fold_left (visit file) evs (c, b))).
Proof.
  induction evs as [|e r IH]; intros c a b H; simpl; [exact H|].
  destruct (visit_same_graph file c a b e H) as [Hc Hg].
  destruct (visit file (c, a) e) as [c1 a1], (visit file (c, b) e) as [c2 b1].
  simpl in *. subst c2. now apply IH.
Qed.

Lemma analyzeFiles_same_graph jsFiles : forall a b,
  same_graph a b -> same_graph (analyzeFiles jsFiles a) (analyzeFiles jsFiles b).
Proof.
  unfold analyzeFiles.
  induction jsFiles as [|f r IH]; intros a b H; simpl; [exact H|].
  apply IH. unfold analyzeFolder_step, analyzeFile.
  destruct (content f) as [m | m | ast | ast k m];
    [exact H | exact H | now apply visits_same_graph |].
  exact (visits_same_graph (relativePath f) (take k (walk_children ast))
           None a b H).
Qed.

Lemma analyzeFiles_app l1 l2 a :
  analyzeFiles (l1 ++ l2) a = analyzeFiles l2 (analyzeFiles l1 a).
Proof. apply fold_left_app. Qed.

Lemma errors_kept jsFiles m : forall a,
  In m (errors a) -> In m (errors (analyzeFiles jsFiles a)).
Proof.
  intros a H.
  apply (analyzeFiles_invariant (fun _ => True) (fun a => In m (errors a)));
    auto using files_entering_True.
  - intros n p file c a0. unfold analyzeFunction.
    destruct (negb _); [easy|]. now destruct (isBlacklistedFunction _).
  - intros n p file a0 _. unfold analyzeCall.
    now destruct (getCallName n) as [[|ch x]|].
  - intros m' a0 H0. simpl. apply in_or_app. now left.
Qed.

(** C5: a file that fails to parse leaves the declarations, the call
    aggregates and the skipped count as they were and adds one warning;
    the files after it are analyzed as if it had not been there. *)
Theorem parse_failure_contributes_nothing before f after message :
  content f = Malformed message ->
  functions (analyzeFolder_step (analyzeFiles before new_analyzer) f)
    = functions (analyzeFiles before new_analyzer)
  /\ functionCalls (analyzeFolder_step (analyzeFiles before new_analyzer) f)
    = functionCalls (analyzeFiles before new_analyzer)
  /\ errors (analyzeFolder_step (analyzeFiles before new_analyzer) f)
    = (errors (analyzeFiles before new_analyzer)
       ++ ["Error analyzing " +:+ relativePath f +:+ ": Parse error: " +:+ message])%list
  /\ functions (analyzeFiles (before ++ f :: after) new_analyzer)
    = functions (analyzeFiles (before ++ after) new_analyzer)
  /\ functionCalls (analyzeFiles (before ++ f :: after) new_analyzer)
    = functionCalls (analyzeFiles (before ++ after) new_analyzer)
  /\ In ("Error analyzing " +:+ relativePath f +:+ ": Parse error: " +:+ message)
        (errors (analyzeFiles (before ++ f :: after) new_analyzer)).
Proof.
  intros Hf.
  assert (analyzeFolder_step (analyzeFiles before new_analyzer) f
          = push_error ("Error analyzing " +:+ relativePath f +:+ ": Parse error: " +:+ message)
                       (analyzeFiles before new_analyzer)) as Hstep.
  { unfold analyzeFolder_step, analyzeFile. now rewrite Hf. }
  rewrite Hstep. repeat split.
  - rewrite !analyzeFiles_app. simpl.
    change (fold_left analyzeFolder_step after) with (analyzeFiles after).
    rewrite Hstep. now apply analyzeFiles_same_graph.
  - rewrite !analyzeFiles_app. simpl.
    change (fold_left analyzeFolder_step after) with (analyzeFiles after).
    rewrite Hstep. now apply analyzeFiles_same_graph.
  - rewrite analyzeFiles_app. simpl.
    change (fold_left analyzeFolder_step after) with (analyzeFiles after).
    rewrite Hstep. apply errors_kept. simpl. apply in_or_app. right. now left.
Qed.

Lemma parse_failure_contributes_nothing_witness :
  functions (analyzeFolder_step (analyzeFiles [ab_js] new_analyzer) broken_js)
    = functions (analyzeFiles [ab_js] new_analyzer)
  /\ functionCalls (analyzeFolder_step (analyzeFiles [ab_js] new_analyzer) broken_js)
    = functionCalls (analyzeFiles [ab_js] new_analyzer)
  /\ errors (analyzeFolder_step (analyzeFiles [ab_js] new_analyzer) broken_js)
    = (errors (analyzeFiles [ab_js] new_analyzer)
       ++ ["Error analyzing broken.js: Parse error: Unexpected token (1:9)"])%list
  /\ functions (analyzeFiles ([ab_js] ++ broken_js :: [nested_js]) new_analyzer)
    = functions (analyzeFiles ([ab_js] ++ [nested_js]) new_analyzer)
  /\ functionCalls (analyzeFiles ([ab_js] ++ broken_js :: [nested_js]) new_analyzer)
    = functionCalls (analyzeFiles ([ab_js] ++ [nested_js]) new_analyzer)
  /\ In "Error analyzing broken.js: Parse error: Unexpected token (1:9)"
        (errors (analyzeFiles ([ab_js] ++ broken_js :: [nested_js]) new_analyzer)).
Proof.
  exact (parse_failure_contributes_nothing [ab_js] broken_js [nested_js]
           "Unexpected token (1:9)" eq_refl).
Defined.

(* ===================================================================== *)
(** ** The manual file walk *)

Lemma findJSFilesManually_spec : forall dir filesList basePath,
  findJSFilesManually dir filesList basePath =
    if walkable dir then Some (filesList ++ listed dir basePath)%list else None.
Proof.
  fix IH 1. intros [files|] acc base; [|reflexivity].
  cbn -[includes excluded]. revert acc.
  induction files as [|e r IHr]; intros acc; cbn -[includes excluded].
  - now rewrite app_nil_r.
  - destruct e as [file | file sub | file | file]; cbn -[includes excluded].
    + destruct (includes _ (toLowerCase (extname file))); rewrite IHr;
        destruct ((fix all (l : list fs_entry) : bool := _) r);
        try reflexivity; now rewrite <- ?app_assoc.
    + fold (excluded file). destruct (excluded file); cbn -[includes excluded].
      * apply IHr.
      * rewrite (IH sub). destruct (walkable sub); [|reflexivity].
        cbn -[includes excluded]. rewrite IHr.
        destruct ((fix all (l : list fs_entry) : bool := _) r);
          [now rewrite app_assoc | reflexivity].
    + apply IHr.
    + reflexivity.
Qed.

(** C6, as stated, fails: one directory that cannot be listed makes the
    manual walk throw, and the source files next to it are not returned. *)
Lemma unreadable_directory_aborts_walk :
  ~ (exists filesList,
       findJSFilesManually locked_tree [] "" = Some filesList
       /\ In "a.js" filesList /\ In "b.ts" filesList).
Proof. intros (l & H & _). vm_compute in H. discriminate. Qed.

Lemma unlistable_not_walkable files file :
  In (FsDir file NoAccess) files -> excluded file = false ->
  walkable (Listing files) = false.
Proof.
  intros Hin Hex. cbn -[excluded].
  induction files as [|e r IHr]; [destruct Hin|].
  destruct Hin as [-> | Hin]; cbn -[excluded].
  - now rewrite Hex.
  - destruct e as [f | f sub | f | f]; auto.
    rewrite (IHr Hin). apply andb_false_r.
Qed.

(** C6, amended: the manual walk returns the source files of the tree,
    in listing order, exactly when every directory it enters can be
    listed and every entry it meets can be examined; otherwise it
    throws and returns nothing.  In particular a directory that is not
    excluded and cannot be listed aborts the walk of the tree that
    holds it. *)
Theorem manual_walk_all_or_nothing :
  (forall dir,
     findJSFilesManually dir [] "" =
       if walkable dir then Some (listed dir "") else None)
  /\ (forall files file,
        In (FsDir file NoAccess) files -> excluded file = false ->
        findJSFilesManually (Listing files) [] "" = None).
Proof.
  split.
  - intros dir. apply findJSFilesManually_spec.
  - intros files file Hin Hex.
    now rewrite findJSFilesManually_spec, (unlistable_not_walkable files file).
Qed.

Lemma manual_walk_all_or_nothing_witness :
  findJSFilesManually open_tree [] "" = Some ["a.js"; "lib/util.MJS"; "b.ts"]
  /\ findJSFilesManually locked_tree [] "" = None.
Proof.
  split.
  - exact (proj1 manual_walk_all_or_nothing open_tree).
  - apply (proj2 manual_walk_all_or_nothing _ "locked");
      [right; left; reflexivity | reflexivity].
Defined.

Example manual_walk_open_tree :
  findJSFilesManually open_tree [] "" = Some ["a.js"; "lib/util.MJS"; "b.ts"].
Proof. reflexivity. Qed.

(* ===================================================================== *)
(** ** The well-used list *)

Section SortByKey.
Context {A : Type} (key : A -> nat).

Lemma sort_insert_perm x l : Permutation (sort_insert (descending key) x l) (x :: l).
Proof.
  induction l as [|y r IH]; simpl; [reflexivity|].
  destruct (descending key x y <=? 0)%Z; [reflexivity|].
  rewrite IH. apply perm_swap.
Qed.

Lemma array_sort_perm l : Permutation (array_sort (descending key) l) l.
Proof.
  induction l as [|x r IH]; simpl; [reflexivity|].
  rewrite sort_insert_perm. now constructor.
Qed.

Lemma sort_insert_sorted x l :
  StronglySorted (fun a b => key b <= key a) l ->
  StronglySorted (fun a b => key b <= key a) (sort_insert (descending key) x l).
Proof.
  induction 1 as [|y r Hr IH Hy]; simpl; [repeat constructor|].
  unfold descending at 1. destruct (Z.leb_spec (Z.of_nat (key y) - Z.of_nat (key x)) 0).
  - constructor; [now constructor|]. constructor; [lia|].
    eapply List.Forall_impl; [|exact Hy]. simpl. intros; lia.
  - constructor; [exact IH|].
    eapply Permutation_Forall; [symmetry; apply sort_insert_perm|].
    constructor; [lia | exact Hy].
Qed.

Lemma array_sort_sorted l :
  StronglySorted (fun a b => key b <= key a) (array_sort (descending key) l).
Proof.
  induction l as [|x r IH]; simpl; [constructor | now apply sort_insert_sorted].
Qed.

Lemma sort_insert_stable c x l :
  List.filter (fun a => (key a =? c)%nat) (sort_insert (descending key) x l)
  = List.filter (fun a => (key a =? c)%nat) (x :: l).
Proof.
  induction l as [|y r IH]; [reflexivity|].
  cbn [sort_insert]. unfold descending at 1.
  destruct (Z.leb_spec (Z.of_nat (key y) - Z.of_nat (key x)) 0); [reflexivity|].
  cbn [List.filter] in *. rewrite IH.
  destruct (Nat.eqb_spec (key x) c), (Nat.eqb_spec (key y) c);
    try reflexivity; lia.
Qed.

Lemma array_sort_stable c l :
  List.filter (fun a => (key a =? c)%nat) (array_sort (descending key) l)
  = List.filter (fun a => (key a =? c)%nat) l.
Proof.
  induction l as [|x r IH]; [reflexivity|].
  cbn [array_sort foldr]. rewrite sort_insert_stable.
  cbn [List.filter]. unfold array_sort in IH. now rewrite IH.
Qed.
End SortByKey.

Lemma multiUse_discovery_order a :
  map fst (multiUse a)
  = List.filter (fun f => (2 <=? callCount a f)%nat) (map snd (functions a)).
Proof.
  unfold multiUse. induction (map snd (functions a)) as [|f r IH]; [reflexivity|].
  cbn [omap list_omap List.filter]. unfold with_callInfo at 1, callCount at 1.
  destruct (functionCalls a !! fn_name f) as [ci|]; [|exact IH].
  destruct (totalCalls ci) as [|[|c]]; cbn; [exact IH | exact IH |].
  f_equal. exact IH.
Qed.

Lemma multiUse_counts a :
  List.Forall (fun x => 2 <= totalCalls (snd x)) (multiUse a).
Proof.
  unfold multiUse. induction (map snd (functions a)) as [|f r IH]; [constructor|].
  cbn [omap list_omap]. unfold with_callInfo at 1.
  destruct (functionCalls a !! fn_name f) as [ci|]; [|exact IH].
  destruct (totalCalls ci) as [|[|c]] eqn:E; cbn; try exact IH.
  constructor; [simpl; lia | exact IH].
Qed.

Lemma multiUse_own a x :
  In x (multiUse a) -> functionCalls a !! fn_name (fst x) = Some (snd x).
Proof.
  unfold multiUse. induction (map snd (functions a)) as [|f r IH]; [intros []|].
  cbn [omap list_omap]. unfold with_callInfo at 1.
  destruct (functionCalls a !! fn_name f) as [ci|] eqn:E; [|exact IH].
  destruct (negb _ && negb _); [|exact IH].
  intros [<- | H]; [exact E | now apply IH].
Qed.

Lemma own_count a x :
  functionCalls a !! fn_name (fst x) = Some (snd x) ->
  totalCalls (snd x) = callCount a (fst x).
Proof. intros H. unfold callCount. now rewrite H. Qed.

Lemma sorted_by_own_count {A B} (k1 : A * B -> nat) (k2 : A -> nat) l :
  (forall x, In x l -> k1 x = k2 (fst x)) ->
  StronglySorted (fun x y => k1 y <= k1 x) l ->
  StronglySorted (fun f g => k2 g <= k2 f) (map fst l).
Proof.
  intros Hk Hs. induction Hs as [|x r Hr IH Hx]; simpl; constructor.
  - apply IH. intros y Hy. apply Hk. now right.
  - apply List.Forall_forall. intros g Hg.
    apply in_map_iff in Hg as (y & <- & Hy).
    rewrite List.Forall_forall in Hx. specialize (Hx y Hy).
    rewrite <- (Hk x), <- (Hk y); [exact Hx | now right | now left].
Qed.

Lemma filter_by_own_count {A B} (k1 : A * B -> nat) (k2 : A -> nat) c l :
  (forall x, In x l -> k1 x = k2 (fst x)) ->
  List.filter (fun f => (k2 f =? c)%nat) (map fst l)
  = map fst (List.filter (fun x => (k1 x =? c)%nat) l).
Proof.
  induction l as [|x r IH]; intros Hk; [reflexivity|]. simpl.
  rewrite <- (Hk x) by now left. rewrite IH by (intros y Hy; apply Hk; now right).
  now destruct (k1 x =? c)%nat.
Qed.

(** C7: every entry of the well-used list pairs a declaration with the
    call aggregate of its own name, so the count printed is the
    declaration's [totalCalls], at least 2.  The list holds exactly the
    declarations called at least twice, in descending order of their
    [totalCalls]; declarations with the same count keep their discovery
    order (the order of the declarations map). *)
Theorem well_used_sorted_stable a :
  (forall f callInfo,
     In (f, callInfo) (sortedMultiUse (generateUsageReport a)) ->
     functionCalls a !! fn_name f = Some callInfo
     /\ totalCalls callInfo = callCount a f
     /\ 2 <= callCount a f)
  /\ StronglySorted (fun f g => callCount a g <= callCount a f)
                    (map fst (sortedMultiUse (generateUsageReport a)))
  /\ Permutation (map fst (sortedMultiUse (generateUsageReport a)))
                 (List.filter (fun f => (2 <=? callCount a f)%nat)
                              (map snd (functions a)))
  /\ (forall c,
        List.filter (fun f => (callCount a f =? c)%nat)
                    (map fst (sortedMultiUse (generateUsageReport a)))
        = List.filter (fun f => (callCount a f =? c)%nat)
            (List.filter (fun f => (2 <=? callCount a f)%nat)
                         (map snd (functions a)))).
Proof.
  change (sortedMultiUse (generateUsageReport a))
    with (array_sort (descending (fun x : func * aggregate => totalCalls (snd x)))
                     (multiUse a)).
  set (key := fun x : func * aggregate => totalCalls (snd x)).
  pose proof (array_sort_perm key (multiUse a)) as Hperm.
  assert (forall x, In x (array_sort (descending key) (multiUse a)) ->
                    functionCalls a !! fn_name (fst x) = Some (snd x)) as Hown.
  { intros x Hx. apply multiUse_own. eapply Permutation_in; eauto. }
  assert (forall x, In x (array_sort (descending key) (multiUse a)) ->
                    key x = callCount a (fst x)) as Hkey
    by (intros x Hx; apply own_count; auto).
  assert (forall x, In x (multiUse a) -> key x = callCount a (fst x)) as Hkey'
    by (intros x Hx; apply own_count, multiUse_own, Hx).
  repeat split.
  - exact (Hown (f, callInfo) H).
  - exact (Hkey (f, callInfo) H).
  - pose proof (Hkey (f, callInfo) H) as E. simpl in E. rewrite <- E.
    pose proof (multiUse_counts a) as Hc. rewrite List.Forall_forall in Hc.
    apply (Hc (f, callInfo)). eapply Permutation_in; eauto.
  - apply (sorted_by_own_count key); [exact Hkey | apply array_sort_sorted].
  - rewrite <- multiUse_discovery_order. now apply Permutation_map.
  - intros c.
    rewrite (filter_by_own_count key (callCount a) c _ Hkey).
    rewrite array_sort_stable.
    rewrite <- (filter_by_own_count key (callCount a) c _ Hkey').
    now rewrite multiUse_discovery_order.
Qed.

Lemma well_used_sorted_stable_witness :
  functionCalls (analyzeFiles [hilo_js] new_analyzer) !! "hi"
  = Some {| callers :=
              [ {| c_file := "hilo.js"; c_line := Some 3; awaited := false |};
                {| c_file := "hilo.js"; c_line := Some 3; awaited := false |};
                {| c_file := "hilo.js"; c_line := Some 3; awaited := false |} ];
            totalCalls := 3 |}
  /\ 3 = callCount (analyzeFiles [hilo_js] new_analyzer)
            {| fn_name := "hi"; fn_async := false; fn_file := "hilo.js";
               fn_class := None; fn_line := Some 2;
               awaitedOperations := []; promiseOperations := [] |}
  /\ 2 <= callCount (analyzeFiles [hilo_js] new_analyzer)
            {| fn_name := "hi"; fn_async := false; fn_file := "hilo.js";
               fn_class := None; fn_line := Some 2;
               awaitedOperations := []; promiseOperations := [] |}.
Proof.
  apply (proj1 (well_used_sorted_stable (analyzeFiles [hilo_js] new_analyzer))
           {| fn_name := "hi"; fn_async := false; fn_file := "hilo.js";
              fn_class := None; fn_line := Some 2;
              awaitedOperations := []; promiseOperations := [] |}
           {| callers :=
                [ {| c_file := "hilo.js"; c_line := Some 3; awaited := false |};
                  {| c_file := "hilo.js"; c_line := Some 3; awaited := false |};
                  {| c_file := "hilo.js"; c_line := Some 3; awaited := false |} ];
              totalCalls := 3 |}).
  vm_compute. left. reflexivity.
Defined.

(** [lo] is declared first and called twice, [hi] is called three times:
    the well-used list shows [hi] before [lo]. *)
Example well_used_order :
  map (fun fc => (fn_name (fst fc), totalCalls (snd fc)))
      (sortedMultiUse (generateUsageReport (analyzeFiles [hilo_js] new_analyzer)))
  = [("hi", 3); ("lo", 2)].
Proof. reflexivity. Qed.

(* ===================================================================== *)
(** ** Determinism *)

(** C8: two runs over the same files in the same order, at different
    times, give the same function inventory, the same async findings and
    the same usage tiers (and the same warnings, skipped count and
    statistics); only the name of the report file depends on the time. *)
Theorem rerun_same_findings round_percent now1 now2 jsFiles :
  inventory (analyzeFolder round_percent now1 jsFiles)
    = inventory (analyzeFolder round_percent now2 jsFiles)
  /\ asyncValidation (analyzeFolder round_percent now1 jsFiles)
    = asyncValidation (analyzeFolder round_percent now2 jsFiles)
  /\ usage (analyzeFolder round_percent now1 jsFiles)
    = usage (analyzeFolder round_percent now2 jsFiles)
  /\ warnings (analyzeFolder round_percent now1 jsFiles)
    = warnings (analyzeFolder round_percent now2 jsFiles)
  /\ skipped (analyzeFolder round_percent now1 jsFiles)
    = skipped (analyzeFolder round_percent now2 jsFiles)
  /\ statistics (analyzeFolder round_percent now1 jsFiles)
    = statistics (analyzeFolder round_percent now2 jsFiles).
Proof. repeat split. Qed.

(* ===================================================================== *)
(** ** Names of declarations and names of calls *)

Lemma identifiers_ok_fields n k c :
  identifiers_ok n = true -> In (k, c) (fields n) -> identifiers_ok c = true.
Proof.
  destruct n as [h l fs]. simpl. intros H. apply andb_true_iff in H as [_ H].
  induction fs as [|[k' c'] r IH]; intros Hin; [destruct Hin|].
  apply andb_true_iff in H as [Hc Hr].
  destruct Hin as [Heq | Hin]; [now inversion Heq; subst | now apply IH].
Qed.

Lemma field_In k n c : field k n = Some c -> exists k', In (k', c) (fields n).
Proof.
  unfold field. destruct (List.find _ (fields n)) as [[k' c']|] eqn:E; [|discriminate].
  simpl. intros [= <-]. exists k'. now apply find_some in E as [E _].
Qed.

Lemma identifiers_ok_field k n c :
  identifiers_ok n = true -> field k n = Some c -> identifiers_ok c = true.
Proof.
  intros Hn Hf. destruct (field_In _ _ _ Hf) as [k' Hin].
  eauto using identifiers_ok_fields.
Qed.

Lemma identifiers_ok_name x l fs :
  identifiers_ok (Node (Identifier x) l fs) = true -> identifier_name x = true.
Proof. simpl. intros H. now apply andb_true_iff in H as [H _]. Qed.

Lemma getCallName_identifier n x :
  identifiers_ok n = true -> getCallName n = Some x -> identifier_name x = true.
Proof.
  intros Hn. unfold getCallName.
  destruct (field "callee" n) as [[h l fs]|] eqn:Ec; [|discriminate].
  pose proof (identifiers_ok_field _ _ _ Hn Ec) as Hc.
  destruct h; try discriminate.
  - intros [= <-]. eauto using identifiers_ok_name.
  - destruct (field "property" _) as [[h' l' fs']|] eqn:Ep; [|discriminate].
    pose proof (identifiers_ok_field _ _ _ Hc Ep) as Hp.
    destruct h'; try discriminate.
    intros [= <-]. eauto using identifiers_ok_name.
Qed.

Lemma walk_identifiers_ok n : forall parent,
  identifiers_ok n = true ->
  List.Forall (entering (fun d => identifiers_ok d = true)) (walk parent n).
Proof.
  induction n as [h l fs IH] using node_induction. intros parent Hn.
  rewrite walk_unfold. constructor; [exact Hn|].
  apply Forall_app. split; [|now repeat constructor].
  unfold walk_children. simpl fields.
  assert (forall k c, In (k, c) fs -> identifiers_ok c = true) as Hfs
    by (intros k c; now apply (identifiers_ok_fields (Node h l fs))).
  clear Hn. generalize (Node h l fs). intros p.
  induction IH as [|[k c] r Hc _ IHr]; simpl; [constructor|].
  apply Forall_app. split.
  - apply Hc. apply (Hfs k). now left.
  - apply IHr. intros k' c' Hin. apply (Hfs k'). now right.
Qed.

Lemma parsed_ok_entering jsFiles :
  forallb parsed_ok jsFiles = true ->
  List.Forall (file_entering (fun d => identifiers_ok d = true)) jsFiles.
Proof.
  rewrite forallb_forall. intros H. apply List.Forall_forall. intros f Hf.
  specialize (H f Hf). unfold parsed_ok, file_entering in *.
  destruct (content f) as [m | m | ast | ast v m]; try exact I.
  all: unfold walk_children; apply List.Forall_forall; intros e He.
  all: apply in_flat_map in He as [[k c] [Hin He]].
  all: pose proof (walk_identifiers_ok c ast (identifiers_ok_fields _ _ _ H Hin))
         as Hw.
  all: rewrite List.Forall_forall in Hw; now apply Hw.
Qed.

Lemma ensure_aggregate_keeps x y (m : gmap string aggregate) :
  is_Some (m !! y) -> is_Some (ensure_aggregate x m !! y).
Proof.
  unfold ensure_aggregate. destruct (m !! x) eqn:E; [easy|].
  intros Hy. destruct (decide (x = y)) as [->|Hne].
  - rewrite lookup_insert_eq. eauto.
  - now rewrite lookup_insert_ne.
Qed.

Lemma ensure_aggregate_has x (m : gmap string aggregate) :
  is_Some (ensure_aggregate x m !! x).
Proof.
  unfold ensure_aggregate. destruct (m !! x) eqn:E; [eauto|].
  rewrite lookup_insert_eq. eauto.
Qed.

Lemma ensure_aggregate_named x (m : gmap string aggregate) :
  map_Forall (fun x c => identifier_name x = true \/ c = empty_aggregate) m ->
  map_Forall (fun x c => identifier_name x = true \/ c = empty_aggregate)
             (ensure_aggregate x m).
Proof.
  intros H. unfold ensure_aggregate. destruct (m !! x); [exact H|].
  apply map_Forall_insert_2; [now right | exact H].
Qed.

Lemma In_map_set {V} k (v : V) m k' v' :
  In (k', v') (map_set k v m) -> (k', v') = (k, v) \/ In (k', v') m.
Proof.
  induction m as [|[k0 v0] r IH]; simpl.
  - intros [H|[]]. now left.
  - destruct (String.eqb k0 k); simpl; intros [H|H]; auto.
    destruct (IH H); auto.
Qed.

Lemma callers_named_run jsFiles :
  forallb parsed_ok jsFiles = true ->
  callers_named (analyzeFiles jsFiles new_analyzer).
Proof.
  intros H.
  apply (analyzeFiles_invariant (fun d => identifiers_ok d = true));
    [| | | now apply parsed_ok_entering | apply map_Forall_empty].
  - intros n p file c a Ha. unfold callers_named, analyzeFunction in *.
    destruct (negb _); [exact Ha|]. destruct (isBlacklistedFunction _); [exact Ha|].
    simpl. now apply ensure_aggregate_named.
  - intros n p file a Hn Ha. unfold callers_named, analyzeCall in *.
    destruct (getCallName n) as [x|] eqn:E; [|exact Ha].
    destruct x as [|ch x]; [exact Ha|]. simpl.
    apply map_Forall_insert_2; [|now apply ensure_aggregate_named].
    left. eauto using getCallName_identifier.
  - intros m a Ha. exact Ha.
Qed.

Lemma declared_aggregates_run jsFiles :
  declared_aggregates (analyzeFiles jsFiles new_analyzer).
Proof.
  apply (analyzeFiles_invariant (fun _ => True));
    [| | | apply files_entering_True | intros id f []].
  - intros n p file c a Ha. unfold declared_aggregates, analyzeFunction in *.
    destruct (negb _); [exact Ha|]. destruct (isBlacklistedFunction _); [exact Ha|].
    simpl. intros id f Hin. apply In_map_set in Hin as [[= -> ->] | Hin]; simpl.
    + apply ensure_aggregate_has.
    + apply ensure_aggregate_keeps. eauto.
  - intros n p file a _ Ha. unfold declared_aggregates, analyzeCall in *.
    destruct (getCallName n) as [x|] eqn:E; [|exact Ha].
    destruct x as [|ch x]; [exact Ha|]. simpl. intros id f Hin.
    destruct (decide (String ch x = fn_name f)) as [->|Hne].
    + rewrite lookup_insert_eq. eauto.
    + rewrite lookup_insert_ne by exact Hne. apply ensure_aggregate_keeps. eauto.
  - intros m a Ha. exact Ha.
Qed.

Lemma bracketed_name s : identifier_name ("[" +:+ s) = false.
Proof. unfold identifier_name. simpl. apply andb_false_r. Qed.

Lemma accessor_prefix_space kind k :
  kind = KGet \/ kind = KSet ->
  identifier_name (accessor_prefix kind +:+ k) = false.
Proof. now intros [-> | ->]. Qed.





(** The run over [sheet.js]: the getter [size] is entered as a
    function-like node with the class body as parent; the run declares
    nothing, lists nothing as unused and has no aggregate for
    ['get size']. *)
Example sheet_getter_not_listed :
  nth_error (walk_children (program [sheet_class;
                                     statement 5 (call 5 (ident 5 "size") [])])) 21
    = Some (Enter sheet_getter sheet_body)
  /\ functions (analyzeFiles [sheet_js] new_analyzer) = []
  /\ unused (generateUsageReport (analyzeFiles [sheet_js] new_analyzer)) = []
  /\ functionCalls (analyzeFiles [sheet_js] new_analyzer) !! "get size" = None.
Proof. repeat split. Qed.

(** X21: when the identifiers of the parsed files hold no space and no
    bracket, a declaration whose name is not such a name (a string key
    with a space, a bracketed computed key) ends every run with an
    empty aggregate and in the unused tier: no call resolves to it. *)
Theorem non_identifier_names_never_called jsFiles id f :
  forallb parsed_ok jsFiles = true ->
  In (id, f) (functions (analyzeFiles jsFiles new_analyzer)) ->
  identifier_name (fn_name f) = false ->
  functionCalls (analyzeFiles jsFiles new_analyzer) !! fn_name f
    = Some empty_aggregate
  /\ In f (unused (generateUsageReport (analyzeFiles jsFiles new_analyzer))).
Proof.
  intros Hok Hin Hname.
  pose proof (callers_named_run jsFiles Hok) as Hc.
  destruct (declared_aggregates_run jsFiles id f Hin) as [ci Hci].
  assert (ci = empty_aggregate) as ->.
  { destruct (Hc _ _ Hci) as [H | H]; [congruence | exact H]. }
  split; [exact Hci|].
  unfold generateUsageReport. simpl. apply filter_In. split.
  - apply in_map_iff. now exists (id, f).
  - unfold callCount. now rewrite Hci.
Qed.

Lemma non_identifier_names_never_called_witness :
  functionCalls (analyzeFiles [keyed_js] new_analyzer) !! "get size"
    = Some empty_aggregate
  /\ In {| fn_name := "get size"; fn_async := false; fn_file := "keyed.js";
           fn_class := None; fn_line := Some 1;
           awaitedOperations := []; promiseOperations := [] |}
        (unused (generateUsageReport (analyzeFiles [keyed_js] new_analyzer))).
Proof.
  apply (non_identifier_names_never_called [keyed_js] "keyed.js:get size:1"
           {| fn_name := "get size"; fn_async := false; fn_file := "keyed.js";
              fn_class := None; fn_line := Some 1;
              awaitedOperations := []; promiseOperations := [] |}).
  - reflexivity.
  - left. reflexivity.
  - reflexivity.
Defined.

(* ===================================================================== *)
(** ** Constructors and other blacklisted names *)










(* ===================================================================== *)
(** ** Worked runs *)

(** [function a(){} function b(){ a(); a(); }]: [a] is well-used with
    two calls, [b] is unused, and there is no async finding. *)
Example run_ab :
  map (fun fc => (fn_name (fst fc), totalCalls (snd fc)))
      (sortedMultiUse (generateUsageReport (analyzeFiles [ab_js] new_analyzer)))
    = [("a", 2)]
  /\ map fn_name (unused (generateUsageReport (analyzeFiles [ab_js] new_analyzer)))
    = ["b"]
  /\ generateAsyncValidationReport (analyzeFiles [ab_js] new_analyzer) = [].
Proof. repeat split. Qed.

(** The methods of a class as the parser gives them are function-like
    nodes below the class body: both are skipped, none is declared. *)
Example run_sheet :
  functions (analyzeFiles [sheet_js] new_analyzer) = []
  /\ skippedFunctionCount (analyzeFiles [sheet_js] new_analyzer) = 2.
Proof. split; reflexivity. Qed.

(** The non-async [outer] is reported as missing [async] for the
    [await] of its nested arrow function. *)
Example run_nested :
  map (fun fi => (fn_name (fst fi), snd fi))
      (generateAsyncValidationReport (analyzeFiles [nested_js] new_analyzer))
    = [("outer", [MissingAsync])].
Proof. reflexivity. Qed.

(* ===================================================================== *)
(** ** Call sites of a name *)

Lemma callers_of_ensure x y (m : gmap string aggregate) :
  match ensure_aggregate y m !! x with
  | Some callInfo => callers callInfo
  | None => []
  end
  = match m !! x with Some callInfo => callers callInfo | None => [] end.
Proof.
  unfold ensure_aggregate. destruct (m !! y) eqn:Ey; [reflexivity|].
  destruct (decide (y = x)) as [->|Hne].
  - now rewrite lookup_insert_eq, Ey.
  - now rewrite lookup_insert_ne.
Qed.

Lemma callers_of_analyzeFunction x n parent file className a :
  callers_of x (analyzeFunction n parent file className a) = callers_of x a.
Proof.
  unfold analyzeFunction, callers_of.
  destruct (negb _); [reflexivity|].
  destruct (isBlacklistedFunction _); [reflexivity|].
  simpl. apply callers_of_ensure.
Qed.

Lemma callers_of_analyzeCall x n parent file a :
  x <> "" -> isCallExpression n = true ->
  callers_of x (analyzeCall n parent file a)
  = (callers_of x a
     ++ if names_call x n then [site_of file (n, parent)] else [])%list.
Proof.
  intros Hx Hc. unfold analyzeCall, names_call, callers_of. rewrite Hc. simpl.
  destruct (getCallName n) as [y|]; [|now rewrite app_nil_r].
  destruct y as [|ch y].
  { destruct (String.eqb_spec "" x) as [E|E]; [congruence | now rewrite app_nil_r]. }
  simpl functionCalls.
  destruct (String.eqb_spec (String ch y) x) as [<-|Hne].
  - rewrite lookup_insert_eq. simpl. f_equal.
    pose proof (callers_of_ensure (String ch y) (String ch y) (functionCalls a)) as H.
    destruct (ensure_aggregate _ _ !! String ch y); simpl; exact H.
  - rewrite lookup_insert_ne by exact Hne. rewrite app_nil_r.
    apply callers_of_ensure.
Qed.

Lemma callers_of_visit x file st e :
  x <> "" ->
  callers_of x (snd (visit file st e))
  = (callers_of x (snd st)
     ++ map (site_of file)
            (List.filter (fun cp => names_call x (fst cp)) (entered [e])))%list.
Proof.
  intros Hx. destruct st as [c a], e as [n p | n p]; simpl.
  - destruct n as [h l fs].
    destruct h; simpl;
      try (unfold names_call; simpl; now rewrite app_nil_r);
      try (rewrite callers_of_analyzeFunction; unfold names_call; simpl;
           now rewrite app_nil_r).
    rewrite callers_of_analyzeCall by (exact Hx || reflexivity).
    now destruct (names_call x _).
  - destruct (isClassDeclaration n); simpl; now rewrite app_nil_r.
Qed.

Lemma callers_of_visits x file evs : forall st,
  x <> "" ->
  callers_of x (snd (fold_left (visit file) evs st))
  = (callers_of x (snd st)
     ++ map (site_of file)
            (List.filter (fun cp => names_call x (fst cp)) (entered evs)))%list.
Proof.
  induction evs as [|e r IH]; intros st Hx; cbn [fold_left].
  - simpl. now rewrite app_nil_r.
  - rewrite IH by exact Hx. rewrite callers_of_visit by exact Hx.
    rewrite <- app_assoc. f_equal.
    change (e :: r) with ([e] ++ r)%list.
    now rewrite entered_app, List.filter_app, map_app.
Qed.

Lemma callers_of_push_error x m a :
  callers_of x (push_error m a) = callers_of x a.
Proof. reflexivity. Qed.

Lemma callers_of_files x jsFiles : forall a,
  x <> "" ->
  callers_of x (analyzeFiles jsFiles a)
  = (callers_of x a ++ flat_map (call_sites x) jsFiles)%list.
Proof.
  unfold analyzeFiles.
  induction jsFiles as [|f r IH]; intros a Hx; simpl.
  - now rewrite app_nil_r.
  - rewrite IH by exact Hx. rewrite app_assoc. f_equal.
    unfold analyzeFolder_step, analyzeFile, call_sites.
    destruct (content f) as [m | m | ast | ast k m].
    + simpl. now rewrite app_nil_r.
    + simpl. now rewrite app_nil_r.
    + now rewrite callers_of_visits.
    + rewrite callers_of_push_error. now rewrite callers_of_visits.
Qed.

(** X1: after a run, the callers recorded under a name are the call
    expressions resolving to that name that the traversals have
    visited, in the order of the files and of the traversal, each with
    its file, its line and whether its parent is an await expression;
    [totalCalls] is their number.  A file that is unreadable or
    malformed adds none, a file whose traversal throws adds those
    visited before the throw. *)
Theorem callers_are_the_call_sites x jsFiles :
  x <> "" ->
  callers_of x (analyzeFiles jsFiles new_analyzer) = flat_map (call_sites x) jsFiles
  /\ (forall callInfo,
        functionCalls (analyzeFiles jsFiles new_analyzer) !! x = Some callInfo ->
        totalCalls callInfo = List.length (flat_map (call_sites x) jsFiles)).
Proof.
  intros Hx.
  assert (callers_of x (analyzeFiles jsFiles new_analyzer)
          = flat_map (call_sites x) jsFiles) as H
    by (now rewrite callers_of_files).
  split; [exact H|]. intros callInfo Hc.
  assert (aggregate_invariant (analyzeFiles jsFiles new_analyzer)) as Hinv.
  { apply (analyzeFiles_invariant (fun _ => True));
      auto using analyzeFunction_aggregates, analyzeCall_aggregates,
                 push_error_aggregates, files_entering_True.
    apply map_Forall_empty. }
  rewrite (Hinv _ _ Hc). rewrite <- H. unfold callers_of. now rewrite Hc.
Qed.

Lemma callers_are_the_call_sites_witness :
  callers_of "a" (analyzeFiles [broken_js; deep_js; ab_js] new_analyzer)
  = [ {| c_file := "ab.js"; c_line := Some 2; awaited := false |};
      {| c_file := "ab.js"; c_line := Some 2; awaited := false |} ].
Proof.
  exact (proj1 (callers_are_the_call_sites "a" [broken_js; deep_js; ab_js]
                  ltac:(discriminate))).
Defined.

(* ===================================================================== *)
(** ** Identity of declarations *)

Lemma map_set_keys_present {V} k (v : V) m :
  In k (map fst m) -> map fst (map_set k v m) = map fst m.
Proof.
  induction m as [|[k' v'] r IH]; simpl; [easy|].
  destruct (String.eqb_spec k' k) as [->|Hne]; simpl; [reflexivity|].
  intros [H | H]; [congruence | now rewrite IH].
Qed.

Lemma map_set_absent {V} k (v : V) m :
  ~ In k (map fst m) -> map_set k v m = (m ++ [(k, v)])%list.
Proof.
  induction m as [|[k' v'] r IH]; simpl; [reflexivity|].
  intros H. destruct (String.eqb_spec k' k) as [->|Hne].
  - exfalso. apply H. now left.
  - rewrite IH; [reflexivity | tauto].
Qed.

Lemma map_set_NoDup {V} k (v : V) m :
  NoDup (map fst m) -> NoDup (map fst (map_set k v m)).
Proof.
  intros H. destruct (in_dec string_dec k (map fst m)) as [Hin | Hout].
  - now rewrite map_set_keys_present.
  - rewrite map_set_absent by exact Hout. rewrite map_app. simpl.
    apply NoDup_app. split; [exact H|]. split.
    + intros y Hy. rewrite list_elem_of_In in Hy. intros Hk.
      apply list_elem_of_In in Hk. destruct Hk as [<- | []]. contradiction.
    + apply NoDup_singleton.
Qed.

Lemma keyed_by_identity_run jsFiles :
  keyed_by_identity (analyzeFiles jsFiles new_analyzer).
Proof.
  apply (analyzeFiles_invariant (fun _ => True));
    [| | | apply files_entering_True | split; [constructor | intros id f []]].
  - intros n p file c a [Hnd Hid]. unfold keyed_by_identity, analyzeFunction.
    destruct (negb _); [now split|].
    destruct (isBlacklistedFunction _); [now split|]. simpl. split.
    + now apply map_set_NoDup.
    + intros id f Hin. apply In_map_set in Hin as [[= -> ->] | Hin]; eauto.
  - intros n p file a _ H. unfold keyed_by_identity, analyzeCall in *.
    now destruct (getCallName n) as [[|ch x]|].
  - intros m a H. exact H.
Qed.

(** X2: after a run the declarations map holds one entry per key, and
    the key of a declaration is [file:name:line] of that declaration. *)
Theorem declarations_keyed_by_identity jsFiles :
  NoDup (map fst (functions (analyzeFiles jsFiles new_analyzer)))
  /\ (forall id f,
        map_get id (functions (analyzeFiles jsFiles new_analyzer)) = Some f ->
        id = functionId (fn_file f) (fn_name f) (fn_line f)).
Proof.
  destruct (keyed_by_identity_run jsFiles) as [Hnd Hid].
  split; [exact Hnd|].
  intros id f H. apply Hid. unfold map_get in H.
  destruct (List.find _ _) as [[k v]|] eqn:E; [|discriminate].
  simpl in H. injection H as ->. apply find_some in E as [Hin Hk].
  simpl in Hk. apply String.eqb_eq in Hk. now subst.
Qed.

Lemma declarations_keyed_by_identity_witness :
  "ab.js:a:1" = functionId "ab.js" "a" (Some 1).
Proof.
  exact (proj2 (declarations_keyed_by_identity [ab_js]) "ab.js:a:1"
           {| fn_name := "a"; fn_async := false; fn_file := "ab.js";
              fn_class := None; fn_line := Some 1;
              awaitedOperations := []; promiseOperations := [] |} eq_refl).
Defined.

Lemma map_get_In_keys {V} k (m : list (string * V)) :
  is_Some (map_get k m) -> In k (map fst m).
Proof.
  unfold map_get. intros [v H].
  destruct (List.find _ m) as [[k' v']|] eqn:E; [|discriminate].
  apply find_some in E as [Hin Hk]. simpl in Hk. apply String.eqb_eq in Hk.
  subst. apply in_map_iff. now exists (k, v').
Qed.

Lemma analyzeFunction_tracked n parent file className a :
  shouldTrack (getFunctionInfo n parent) = true ->
  isBlacklistedFunction (info_name (getFunctionInfo n parent)) = false ->
  functions (analyzeFunction n parent file className a)
  = map_set (functionId file (info_name (getFunctionInfo n parent)) (line n))
      {| fn_name := info_name (getFunctionInfo n parent);
         fn_async := node_async n; fn_file := file; fn_class := className;
         fn_line := line n;
         awaitedOperations := collect_awaited n;
         promiseOperations := collect_promise n |}
      (functions a).
Proof. intros Ht Hb. unfold analyzeFunction. now rewrite Ht, Hb. Qed.

(** X3: two tracked functions of one file with the same name and the
    same line are one declaration: the second visit replaces the entry
    of the first at its place, and the number of declarations does not
    grow. *)
Theorem same_identity_overwrites n1 p1 c1 n2 p2 c2 file a :
  shouldTrack (getFunctionInfo n1 p1) = true ->
  isBlacklistedFunction (info_name (getFunctionInfo n1 p1)) = false ->
  shouldTrack (getFunctionInfo n2 p2) = true ->
  info_name (getFunctionInfo n2 p2) = info_name (getFunctionInfo n1 p1) ->
  line n2 = line n1 ->
  map fst (functions (analyzeFunction n2 p2 file c2 (analyzeFunction n1 p1 file c1 a)))
    = map fst (functions (analyzeFunction n1 p1 file c1 a))
  /\ map_get (functionId file (info_name (getFunctionInfo n1 p1)) (line n1))
             (functions (analyzeFunction n2 p2 file c2
                           (analyzeFunction n1 p1 file c1 a)))
     = Some {| fn_name := info_name (getFunctionInfo n1 p1);
               fn_async := node_async n2; fn_file := file; fn_class := c2;
               fn_line := line n1;
               awaitedOperations := collect_awaited n2;
               promiseOperations := collect_promise n2 |}.
Proof.
  intros Ht1 Hb1 Ht2 Hname Hline.
  assert (isBlacklistedFunction (info_name (getFunctionInfo n2 p2)) = false) as Hb2
    by now rewrite Hname.
  rewrite (analyzeFunction_tracked n2 p2 file c2 _ Ht2 Hb2).
  rewrite Hname, Hline. split; [|apply map_get_map_set].
  apply map_set_keys_present. apply map_get_In_keys.
  rewrite (analyzeFunction_tracked n1 p1 file c1 a Ht1 Hb1).
  rewrite map_get_map_set. eauto.
Qed.

Lemma same_identity_overwrites_witness :
  map fst (functions (analyzeFunction (arrow 1 true []) f_declarator "x.js" None
                        (analyzeFunction (arrow 1 false []) f_declarator "x.js"
                                         None new_analyzer)))
    = ["x.js:f:1"]
  /\ map_get "x.js:f:1"
       (functions (analyzeFunction (arrow 1 true []) f_declarator "x.js" None
                     (analyzeFunction (arrow 1 false []) f_declarator "x.js"
                                      None new_analyzer)))
     = Some {| fn_name := "f"; fn_async := true; fn_file := "x.js";
               fn_class := None; fn_line := Some 1;
               awaitedOperations := []; promiseOperations := [] |}.
Proof.
  apply (same_identity_overwrites (arrow 1 false []) f_declarator None
           (arrow 1 true []) f_declarator None "x.js" new_analyzer);
    reflexivity.
Defined.

(* ===================================================================== *)
(** ** Counting function-like nodes *)

Lemma map_set_length {V} k (v : V) m :
  List.length (map_set k v m) <= S (List.length m).
Proof.
  induction m as [|[k' v'] r IH]; simpl; [lia|].
  destruct (String.eqb k' k); simpl; lia.
Qed.

Lemma accounted_visit file st e :
  accounted (snd (visit file st e))
  <= accounted (snd st)
     + List.length (List.filter (fun cp => isFunction (fst cp)) (entered [e])).
Proof.
  unfold accounted. destruct st as [c a], e as [n p | n p]; simpl.
  - destruct n as [h l fs].
    destruct h; simpl; try lia;
      try (unfold analyzeFunction;
           destruct (negb _); [simpl; lia|];
           destruct (isBlacklistedFunction _); simpl; [lia|];
           match goal with |- context [map_set ?k ?v ?m] =>
             pose proof (map_set_length k v m) end; lia).
    unfold analyzeCall. destruct (getCallName _) as [[|ch x]|]; simpl; lia.
  - destruct (isClassDeclaration n); simpl; lia.
Qed.

Lemma accounted_visits file evs : forall st,
  accounted (snd (fold_left (visit file) evs st))
  <= accounted (snd st)
     + List.length (List.filter (fun cp => isFunction (fst cp)) (entered evs)).
Proof.
  induction evs as [|e r IH]; intros st; cbn [fold_left]; [simpl; lia|].
  specialize (IH (visit file st e)). pose proof (accounted_visit file st e) as H.
  change (e :: r) with ([e] ++ r)%list.
  rewrite entered_app, List.filter_app, length_app. lia.
Qed.

Lemma function_prefix k (evs : list event) :
  List.length (List.filter (fun cp => isFunction (fst cp)) (entered (take k evs)))
  <= List.length (List.filter (fun cp => isFunction (fst cp)) (entered evs)).
Proof.
  rewrite <- (take_drop k evs) at 2.
  rewrite entered_app, List.filter_app, length_app. lia.
Qed.

(** X4: the total the summary prints, skipped plus trackable, never
    exceeds the number of function-like nodes of the parsed files: each
    such node is counted at most once. *)
Theorem total_within_function_nodes jsFiles :
  skippedFunctionCount (analyzeFiles jsFiles new_analyzer)
  + List.length (functions (analyzeFiles jsFiles new_analyzer))
  <= list_sum (map function_nodes jsFiles).
Proof.
  change (accounted (analyzeFiles jsFiles new_analyzer)
          <= accounted new_analyzer + list_sum (map function_nodes jsFiles)).
  generalize new_analyzer. unfold analyzeFiles.
  induction jsFiles as [|f r IH]; intros a; simpl; [lia|].
  specialize (IH (analyzeFolder_step a f)).
  assert (accounted (analyzeFolder_step a f) <= accounted a + function_nodes f).
  { unfold analyzeFolder_step, analyzeFile, function_nodes.
    destruct (content f) as [m | m | ast | ast k m];
      try (unfold accounted; simpl; lia).
    - apply (accounted_visits (relativePath f) (walk_children ast) (None, a)).
    - pose proof (accounted_visits (relativePath f) (take k (walk_children ast))
                    (None, a)) as Hk.
      pose proof (function_prefix k (walk_children ast)) as Hp.
      unfold accounted in *. simpl in *. unfold descendants. lia. }
  lia.
Qed.

(* ===================================================================== *)
(** ** The current class *)



(* ===================================================================== *)
(** ** Usage tiers *)

Lemma tiers_partition a (l : list func) :
  List.length (List.filter (fun f => (callCount a f =? 0)%nat) l)
  + List.length (omap (with_callInfo a (fun c => (c =? 1)%nat)) l)
  + List.length (omap (with_callInfo a
                         (fun c => negb (c =? 0)%nat && negb (c =? 1)%nat)) l)
  = List.length l.
Proof.
  induction l as [|f r IH]; [reflexivity|].
  cbn [List.filter omap list_omap].
  remember (List.filter _ r) as U eqn:EU.
  remember (omap (with_callInfo a (fun c => (c =? 1)%nat)) r) as S1 eqn:ES.
  remember (omap (with_callInfo a
                    (fun c => negb (c =? 0)%nat && negb (c =? 1)%nat)) r)
    as M eqn:EM. clear EU ES EM.
  unfold with_callInfo, callCount.
  destruct (functionCalls a !! fn_name f) as [ci|]; [|simpl; lia].
  destruct (totalCalls ci) as [|[|c]]; simpl; lia.
Qed.

Lemma singleUse_length a (l : list func) :
  List.length (omap (with_callInfo a (fun c => (c =? 1)%nat)) l)
  = List.length (List.filter (fun f =>
                   match functionCalls a !! fn_name f with
                   | Some callInfo => (totalCalls callInfo =? 1)%nat
                   | None => false
                   end) l).
Proof.
  induction l as [|f r IH]; [reflexivity|].
  cbn [List.filter omap list_omap].
  remember (omap _ r) as S1 eqn:ES. remember (List.filter _ r) as F eqn:EF.
  clear ES EF. unfold with_callInfo.
  destruct (functionCalls a !! fn_name f) as [ci|]; [|exact IH].
  destruct (totalCalls ci =? 1)%nat; simpl; now rewrite IH.
Qed.

Lemma unused_length a (l : list func) :
  List.filter (fun f => (callCount a f =? 0)%nat) l
  = List.filter (fun f =>
                   match functionCalls a !! fn_name f with
                   | Some callInfo => (totalCalls callInfo =? 0)%nat
                   | None => true
                   end) l.
Proof.
  apply List.filter_ext. intros f. unfold callCount.
  now destruct (functionCalls a !! fn_name f).
Qed.

(** X6: the three usage tiers partition the declarations, and the
    counts of the summary are the sizes of the lists of the usage
    report: unused, single-use and well-used. *)
Theorem tiers_partition_declarations round_percent a :
  List.length (unused (generateUsageReport a))
  + List.length (singleUse (generateUsageReport a))
  + List.length (sortedMultiUse (generateUsageReport a))
  = List.length (functions a)
  /\ unusedCount (generateSummary round_percent a)
     = Z.of_nat (List.length (unused (generateUsageReport a)))
  /\ singleUseCount (generateSummary round_percent a)
     = Z.of_nat (List.length (singleUse (generateUsageReport a)))
  /\ wellUsed (generateSummary round_percent a)
     = Z.of_nat (List.length (sortedMultiUse (generateUsageReport a))).
Proof.
  pose proof (tiers_partition a (map snd (functions a))) as H.
  rewrite length_map in H.
  assert (List.length (sortedMultiUse (generateUsageReport a))
          = List.length (multiUse a)) as Hs.
  { apply Permutation_length.
    exact (array_sort_perm (fun x : func * aggregate => totalCalls (snd x))
                           (multiUse a)). }
  rewrite Hs.
  change (unused (generateUsageReport a))
    with (List.filter (fun f => (callCount a f =? 0)%nat) (map snd (functions a))).
  change (singleUse (generateUsageReport a))
    with (omap (with_callInfo a (fun c => (c =? 1)%nat)) (map snd (functions a))).
  unfold multiUse.
  split; [exact H|].
  unfold generateSummary.
  cbn [unusedCount singleUseCount wellUsed].
  rewrite <- unused_length, <- singleUse_length.
  repeat split; lia.
Qed.

(* ===================================================================== *)
(** ** Async issues: the two totals *)

Lemma countAsyncIssues_sum a :
  countAsyncIssues a = list_sum (map (issue_weight a) (map snd (functions a))).
Proof.
  unfold countAsyncIssues.
  assert (forall l c,
            fold_left
              (fun count (kf : string * func) =>
                 let f := snd kf in
                 let count := if fn_async f && no_operations f then S count else count in
                 let count :=
                   if negb (fn_async f) && negb (no_operations f) then S count else count in
                 match functionCalls a !! fn_name f with
                 | Some callInfo =>
                     if fn_async f
                     then count + List.length (List.filter (fun c => negb (awaited c))
                                                           (callers callInfo))
                     else count + List.length (List.filter awaited (callers callInfo))
                 | None => count
                 end) l c
            = c + list_sum (map (issue_weight a) (map snd l))) as H.
  { induction l as [|[id f] r IH]; intros c; simpl; [lia|].
    rewrite IH. unfold issue_weight.
    destruct (fn_async f), (no_operations f),
      (functionCalls a !! fn_name f); simpl; lia. }
  apply (H (functions a) 0).
Qed.

Lemma length_zero_iff_nil {A} (l : list A) : List.length l = 0 <-> l = [].
Proof. destruct l; simpl; split; (easy || lia). Qed.

Lemma issue_lines_weight a f :
  list_sum (map issue_lines (issues_for_function a f)) <= 3 * issue_weight a f
  /\ (issue_weight a f = 0 <-> issues_for_function a f = [])
  /\ (issues_for_function a f <> [] ->
      2 <= list_sum (map issue_lines (issues_for_function a f)) <= 5).
Proof.
  unfold issues_for_function, issue_weight, call_issue.
  destruct (fn_async f), (no_operations f),
    (functionCalls a !! fn_name f) as [ci|]; simpl;
    try (destruct (List.filter _ (callers ci)) as [|c r]; simpl);
    repeat split; intros; try lia; try congruence; try discriminate.
Qed.

Lemma asyncIssueTotal_sum a :
  asyncIssueTotal a
  = list_sum (map (fun f => list_sum (map issue_lines (issues_for_function a f)))
                  (map snd (functions a))).
Proof.
  unfold asyncIssueTotal, generateAsyncValidationReport.
  induction (functions a) as [|[id f] r IH]; [reflexivity|].
  cbn [map List.filter snd list_sum].
  destruct (issues_for_function a f) as [|i is'] eqn:E; simpl.
  - exact IH.
  - rewrite <- IH. reflexivity.
Qed.

(** X7: the issue count of the recommendations ([countAsyncIssues]) and
    the findings of the validation section vanish together; the total
    printed by the validation section counts report lines, so it is at
    least twice and at most five times the number of flagged
    declarations, and at most three times [countAsyncIssues]. *)
Theorem async_totals_agree_on_zero a :
  (countAsyncIssues a = 0 <-> generateAsyncValidationReport a = [])
  /\ 2 * List.length (generateAsyncValidationReport a) <= asyncIssueTotal a
  /\ asyncIssueTotal a <= 5 * List.length (generateAsyncValidationReport a)
  /\ asyncIssueTotal a <= 3 * countAsyncIssues a.
Proof.
  rewrite countAsyncIssues_sum, asyncIssueTotal_sum.
  unfold generateAsyncValidationReport.
  induction (functions a) as [|[id f] r IH]; [simpl; repeat split; lia|].
  destruct (issue_lines_weight a f) as (Hw1 & Hz1 & Hb1).
  cbn [map List.filter snd].
  assert (forall x l, list_sum (x :: l) = x + list_sum l) as Hc by reflexivity.
  rewrite !Hc. clear Hc.
  remember (List.filter _ (map _ r)) as R eqn:ER.
  remember (list_sum (map (issue_weight a) (map snd r))) as W eqn:EW.
  remember (list_sum
              (map (fun f => list_sum (map issue_lines (issues_for_function a f)))
                   (map snd r))) as L eqn:EL.
  clear ER EW EL. destruct IH as (Hz & Hlo & Hhi & Hw).
  destruct (issues_for_function a f) as [|i is'] eqn:E.
  - assert (issue_weight a f = 0) as -> by now apply Hz1.
    simpl in *. split; [exact Hz | repeat split; lia].
  - assert (issue_weight a f <> 0) as Hne by (rewrite Hz1; discriminate).
    specialize (Hb1 ltac:(discriminate)).
    simpl List.length. simpl Nat.ltb. cbv iota. simpl List.length.
    split; [split; [lia | discriminate] | repeat split; lia].
Qed.

(* ===================================================================== *)
(** ** Recommendations *)

(** X8: the recommendations are empty exactly when there is no unused
    declaration, no async issue and exactly five single-use
    declarations (more than five give the refactoring block, fewer than
    five the closing praise); the praise never comes with another
    block. *)
Theorem recommendations_gap_at_five a :
  (generateRecommendations a = [] <->
     List.length (unused_declarations a) = 0
     /\ List.length (singleUse_declarations a) = 5
     /\ countAsyncIssues a = 0)
  /\ (In ExcellentCodebase (generateRecommendations a) ->
      generateRecommendations a = [ExcellentCodebase]).
Proof.
  unfold generateRecommendations.
  destruct (Nat.ltb_spec 0 (List.length (unused_declarations a)));
    destruct (Nat.ltb_spec 5 (List.length (singleUse_declarations a)));
    destruct (Nat.ltb_spec 0 (countAsyncIssues a));
    destruct (Nat.eqb_spec (List.length (unused_declarations a)) 0);
    destruct (Nat.ltb_spec (List.length (singleUse_declarations a)) 5);
    destruct (Nat.eqb_spec (countAsyncIssues a) 0);
    simpl; try lia;
    (split; [split; [try discriminate; intros; lia
                    | try (intros (? & ? & ?); lia); reflexivity]
            | try reflexivity;
              intros Hin; repeat destruct Hin as [Hin | Hin];
              try discriminate; try contradiction]).
Qed.

Lemma async_totals_agree_on_zero_witness :
  generateAsyncValidationReport (analyzeFiles [ab_js] new_analyzer) = [].
Proof.
  apply (proj1 (proj1 (async_totals_agree_on_zero (analyzeFiles [ab_js] new_analyzer)))).
  reflexivity.
Defined.

Lemma recommendations_gap_at_five_witness :
  generateRecommendations new_analyzer = [ExcellentCodebase].
Proof.
  apply (proj2 (recommendations_gap_at_five new_analyzer)).
  left. reflexivity.
Defined.

(* ===================================================================== *)
(** ** Grouping of the inventory *)

Lemma group_push_perm {K V} (eqb : K -> K -> bool) k (v : V) m :
  Permutation (concat (map snd (group_push eqb k v m)))
              (concat (map snd m) ++ [v]).
Proof.
  induction m as [|[k' vs] r IH]; simpl; [reflexivity|].
  destruct (eqb k' k); simpl.
  - rewrite <- !app_assoc. apply Permutation_app_head.
    apply Permutation_app_comm.
  - rewrite IH. now rewrite app_assoc.
Qed.

Lemma fold_group_perm {K V E} (eqb : K -> K -> bool) (key : E -> K)
  (val : E -> V) l : forall m,
  Permutation
    (concat (map snd (fold_left (fun m e => group_push eqb (key e) (val e) m) l m)))
    (concat (map snd m) ++ map val l).
Proof.
  induction l as [|e r IH]; intros m; simpl; [now rewrite app_nil_r|].
  rewrite IH, group_push_perm. now rewrite <- app_assoc.
Qed.

Lemma concat_filter_nonempty {K V} (m : list (K * list V)) :
  concat (map snd (List.filter (fun g => (0 <? List.length (snd g))%nat) m))
  = concat (map snd m).
Proof.
  induction m as [|[k [|v vs]] r IH]; simpl; [reflexivity | exact IH | now rewrite IH].
Qed.

Lemma mapped_groups {K A B} (g : A -> B) (m : list (K * list A)) :
  flat_map snd (map (fun cf : K * list A => (fst cf, map g (snd cf))) m)
  = map g (concat (map snd m)).
Proof.
  induction m as [|[k vs] r IH]; simpl; [reflexivity|].
  now rewrite map_app, IH.
Qed.

(** X9: the inventory shows every declaration exactly once, with its
    async marker, name, line and call count: its lines are a
    rearrangement of the declarations. *)
Theorem inventory_lists_each_declaration_once a :
  Permutation (inventory_lines (generateFunctionList a))
              (map (inventory_line_of a) (map snd (functions a))).
Proof.
  unfold inventory_lines, generateFunctionList.
  assert (forall fs : list func,
            Permutation
              (flat_map snd
                 (map (fun cf : option string * list func =>
                         (fst cf, map (inventory_line_of a) (snd cf)))
                      (byClass fs)))
              (map (inventory_line_of a) fs)) as Hclass.
  { intros fs. rewrite mapped_groups. apply Permutation_map. unfold byClass.
    rewrite (fold_group_perm class_eqb fn_class (fun f => f)). simpl.
    now rewrite map_id. }
  transitivity (map (inventory_line_of a)
                    (concat (map snd (List.filter
                                        (fun ff => (0 <? List.length (snd ff))%nat)
                                        (byFile a))))).
  { induction (List.filter _ (byFile a)) as [|ff r IH]; simpl; [reflexivity|].
    rewrite map_app. apply Permutation_app; [apply Hclass | exact IH]. }
  apply Permutation_map.
  rewrite concat_filter_nonempty. unfold byFile.
  rewrite (fold_group_perm String.eqb (fun kf => fn_file (snd kf)) snd). reflexivity.
Qed.

Lemma group_push_keys {V} k (v : V) (m : list (string * list V)) :
  NoDup (map fst m) ->
  NoDup (map fst (group_push String.eqb k v m))
  /\ (forall k', In k' (map fst (group_push String.eqb k v m)) <->
                 k' = k \/ In k' (map fst m))
  /\ (forall k' vs, In (k', vs) (group_push String.eqb k v m) ->
        exists vs0, vs = (vs0 ++ if String.eqb k' k then [v] else [])%list
                    /\ (In (k', vs0) m \/ vs0 = [] /\ k' = k /\ ~ In k (map fst m))).
Proof.
  induction m as [|[k0 vs0] r IH]; intros Hnd; simpl.
  - split; [repeat constructor; set_solver|].
    split; [intros k'; simpl; intuition|].
    intros k' vs [[= <- <-] | []]. exists []. rewrite String.eqb_refl.
    split; [reflexivity|]. right. auto.
  - apply NoDup_cons in Hnd as [Hk0 Hr]. specialize (IH Hr).
    destruct IH as (IHnd & IHk & IHg).
    destruct (String.eqb_spec k0 k) as [->|Hne]; simpl.
    + split; [apply NoDup_cons; auto|].
      split; [intros k'; intuition|].
      intros k' vs [[= <- <-] | Hin].
      * exists vs0. rewrite String.eqb_refl. auto.
      * exists vs. destruct (String.eqb_spec k' k) as [->|Hk'].
        { exfalso. apply Hk0. apply list_elem_of_In.
          apply in_map_iff. now exists (k, vs). }
        rewrite app_nil_r. auto.
    + split.
      { apply NoDup_cons. split; [|exact IHnd].
        rewrite list_elem_of_In, IHk. intros [H | H]; [congruence|].
        apply Hk0. now apply list_elem_of_In. }
      split; [intros k'; rewrite IHk; intuition|].
      intros k' vs [[= <- <-] | Hin].
      * exists vs0. destruct (String.eqb_spec k0 k); [congruence|].
        rewrite app_nil_r. auto.
      * destruct (IHg _ _ Hin) as (vs1 & -> & [H | (-> & -> & Hout)]).
        { exists vs1. auto. }
        exists []. split; [reflexivity|]. right. repeat split.
        intros [H | H]; [congruence | contradiction].
Qed.

Lemma filter_none {A} (p : A -> bool) l :
  (forall x, In x l -> p x = false) -> List.filter p l = [].
Proof.
  induction l as [|x r IH]; intros H; simpl; [reflexivity|].
  rewrite (H x) by now left. apply IH. intros y Hy. apply H. now right.
Qed.

Lemma grouped_by_file_push m l v :
  grouped_by_file m l ->
  grouped_by_file (group_push String.eqb (fn_file v) v m) (l ++ [v]).
Proof.
  intros (Hnd & Hk & Hg).
  destruct (group_push_keys (fn_file v) v m Hnd) as (Hnd' & Hk' & Hg').
  split; [exact Hnd'|]. split.
  - intros F. rewrite Hk', Hk, map_app, in_app_iff. simpl. intuition.
  - intros F fs Hin. destruct (Hg' _ _ Hin) as (vs0 & -> & H).
    rewrite List.filter_app. simpl. rewrite (String.eqb_sym (fn_file v) F). f_equal.
    destruct H as [H | (-> & -> & Hout)]; [now apply Hg|].
    symmetry. apply filter_none. intros f Hf. apply String.eqb_neq.
    intros Heq. apply Hout, Hk. apply in_map_iff. eauto.
Qed.

Lemma grouped_by_file_fold (l : list (string * func)) : forall m done,
  grouped_by_file m done ->
  grouped_by_file
    (fold_left (fun m kf => group_push String.eqb (fn_file (snd kf)) (snd kf) m) l m)
    (done ++ map snd l).
Proof.
  induction l as [|[id f] r IH]; intros m done H; simpl.
  - now rewrite app_nil_r.
  - change (f :: map snd r) with ([f] ++ map snd r)%list. rewrite app_assoc.
    apply IH. now apply grouped_by_file_push.
Qed.

Lemma filter_nonempty_all {K V} (m : list (K * list V)) :
  (forall g, In g m -> snd g <> []) ->
  List.filter (fun g => (0 <? List.length (snd g))%nat) m = m.
Proof.
  induction m as [|[k vs] r IH]; intros H; [reflexivity|]. simpl.
  assert (vs <> []) as Hvs by (apply (H (k, vs)); now left).
  destruct vs as [|v vs]; [congruence|]. simpl. f_equal.
  apply IH. intros g Hg. apply H. now right.
Qed.

(** X10: the inventory has one group per file that holds a declaration,
    and the group of a file holds the declarations of that file in
    discovery order; no group is empty, so the test that hides files
    without trackable functions never hides a group. *)
Theorem inventory_groups_by_file a :
  NoDup (map fst (byFile a))
  /\ (forall F fs, In (F, fs) (byFile a) ->
        fs = List.filter (fun f => String.eqb (fn_file f) F) (map snd (functions a))
        /\ fs <> [])
  /\ (forall id f, In (id, f) (functions a) -> In (fn_file f) (map fst (byFile a)))
  /\ List.filter (fun ff => (0 <? List.length (snd ff))%nat) (byFile a) = byFile a.
Proof.
  assert (grouped_by_file (byFile a) (map snd (functions a))) as (Hnd & Hk & Hg).
  { apply (grouped_by_file_fold (functions a) [] []).
    split; [constructor|]. split; [intros F; simpl; tauto | intros F fs []]. }
  assert (forall F fs, In (F, fs) (byFile a) -> fs <> []) as Hne.
  { intros F fs Hin. rewrite (Hg _ _ Hin).
    assert (In F (map fn_file (map snd (functions a)))) as HF.
    { apply Hk. apply in_map_iff. now exists (F, fs). }
    apply in_map_iff in HF as (f & <- & Hf). intros Hnil.
    assert (In f (List.filter (fun f0 => String.eqb (fn_file f0) (fn_file f))
                              (map snd (functions a)))) as Hin'
      by (apply filter_In; split; [exact Hf | apply String.eqb_refl]).
    now rewrite Hnil in Hin'. }
  split; [exact Hnd|]. split; [intros F fs Hin; split; eauto|]. split.
  - intros id f Hin. apply Hk. apply in_map_iff. exists f. split; [reflexivity|].
    apply in_map_iff. now exists (id, f).
  - apply filter_nonempty_all. intros [F fs] Hin. simpl. eauto.
Qed.

Lemma inventory_groups_by_file_witness :
  In "ab.js" (map fst (byFile (analyzeFiles [ab_js] new_analyzer))).
Proof.
  apply (proj1 (proj2 (proj2 (inventory_groups_by_file
                                (analyzeFiles [ab_js] new_analyzer))))
           "ab.js:a:1"
           {| fn_name := "a"; fn_async := false; fn_file := "ab.js";
              fn_class := None; fn_line := Some 1;
              awaitedOperations := []; promiseOperations := [] |}).
  left. reflexivity.
Defined.

(* ===================================================================== *)
(** ** Promise operations *)

Lemma existsb_eqb_In x l : existsb (String.eqb x) l = true <-> In x l.
Proof.
  rewrite existsb_exists. split.
  - intros (y & Hy & E). apply String.eqb_eq in E. now subst.
  - intros H. exists x. split; [exact H | apply String.eqb_refl].
Qed.

(** X11: a call counts as a promise operation by the name it resolves
    to only for [then], [catch] and [finally]: a plain call never does,
    and a member call with an identifier property does exactly when the
    property is one of the three, whatever the object, [Promise]
    included. *)
Theorem promise_operations_by_name n :
  (forall x, isPromiseOperation n = true -> getCallName n = Some x ->
             In x ["then"; "catch"; "finally"])
  /\ (forall x l fs, field "callee" n = Some (Node (Identifier x) l fs) ->
                     isPromiseOperation n = false)
  /\ (forall c l fs p l' fs',
        field "callee" n = Some (Node (MemberExpression c) l fs) ->
        field "property" (Node (MemberExpression c) l fs)
          = Some (Node (Identifier p) l' fs') ->
        isPromiseOperation n = true <-> In p ["then"; "catch"; "finally"]).
Proof.
  unfold isPromiseOperation, getCallName. repeat split.
  - intros x. destruct (field "callee" n) as [[h l fs]|]; [|discriminate].
    destruct h; try discriminate.
    destruct (field "property" _) as [[h' l' fs']|]; [|discriminate].
    destruct h'; try discriminate.
    intros H [= <-]. now apply existsb_eqb_In.
  - intros x l fs ->. reflexivity.
  - rewrite H, H0. apply existsb_eqb_In.
  - rewrite H, H0. apply existsb_eqb_In.
Qed.

Lemma promise_operations_by_name_witness :
  isPromiseOperation
    (call 1 (member 1 (ident 1 "Promise") (ident 1 "all")) []) = true
  <-> In "all" ["then"; "catch"; "finally"].
Proof.
  apply (proj2 (proj2 (promise_operations_by_name
                         (call 1 (member 1 (ident 1 "Promise") (ident 1 "all")) [])))
           false (Some 1) [("object", ident 1 "Promise"); ("property", ident 1 "all")]
           "all" (Some 1) []); reflexivity.
Defined.

(* ===================================================================== *)
(** ** Names and paths as strings *)

Lemma substring_skip p n s :
  substring (String.length p) n (p +:+ s) = substring 0 n s.
Proof. induction p as [|c p IH]; simpl; [reflexivity | exact IH]. Qed.

Lemma substring_all s : substring 0 (String.length s) s = s.
Proof. induction s as [|c s IH]; simpl; [reflexivity | now rewrite IH]. Qed.

Lemma string_split k : forall s,
  k <= String.length s ->
  s = substring 0 k s +:+ substring k (String.length s - k) s.
Proof.
  induction k as [|k IH]; intros s Hk.
  - rewrite Nat.sub_0_r, substring_all. now destruct s.
  - destruct s as [|c s]; simpl in *; [lia|].
    change (String c s = String c (substring 0 k s
                                   +:+ substring k (String.length s - k) s)).
    f_equal. apply IH. lia.
Qed.

Lemma append_length s t :
  String.length (s +:+ t) = String.length s + String.length t.
Proof. induction s as [|c s IH]; simpl; [reflexivity | now rewrite IH]. Qed.

Lemma ends_with_suffix suf s :
  ends_with suf s = true <-> exists p, s = p +:+ suf.
Proof.
  unfold ends_with. rewrite andb_true_iff, Nat.leb_le, String.eqb_eq. split.
  - intros [Hl He].
    exists (substring 0 (String.length s - String.length suf) s).
    pose proof (string_split (String.length s - String.length suf) s
                  ltac:(lia)) as Hs.
    replace (String.length s - (String.length s - String.length suf))
      with (String.length suf) in Hs by lia.
    now rewrite He in Hs.
  - intros [p ->]. rewrite append_length. split; [lia|].
    replace (String.length p + String.length suf - String.length suf)
      with (String.length p) by lia.
    rewrite substring_skip. apply substring_all.
Qed.

Lemma prefix_then_upper_spec p s :
  prefix_then_upper p s = true <->
  exists c r, is_upper c = true /\ s = p +:+ String c r.
Proof.
  revert s. induction p as [|a p IH]; intros s; simpl.
  - destruct s as [|c r]; split; try discriminate.
    + intros (c & r & _ & H). discriminate.
    + intros H. now exists c, r.
    + now intros (c' & r' & H & [= -> ->]).
  - destruct s as [|b s]; [split; [discriminate | intros (c & r & _ & H); discriminate]|].
    rewrite andb_true_iff, IH. split.
    + intros [Hab (c & r & Hc & ->)]. apply Ascii.eqb_eq in Hab. subst. eauto.
    + intros (c & r & Hc & [= -> ->]). split; [apply Ascii.eqb_refl | eauto].
Qed.

(** X12: a name is blacklisted exactly when it is one of the listed
    names, or starts with [on], [handle] or [_on] followed by an
    upper-case ASCII letter, or ends with [Handler], [Listener] or
    [Callback]. *)
Theorem blacklisted_names functionName :
  isBlacklistedFunction functionName = true <->
  In functionName functionBlacklist
  \/ (exists c r, is_upper c = true
                  /\ (functionName = "on" +:+ String c r
                      \/ functionName = "handle" +:+ String c r
                      \/ functionName = "_on" +:+ String c r))
  \/ (exists p, functionName = p +:+ "Handler"
                \/ functionName = p +:+ "Listener"
                \/ functionName = p +:+ "Callback").
Proof.
  unfold isBlacklistedFunction.
  rewrite !orb_true_iff, existsb_eqb_In, !prefix_then_upper_spec, !ends_with_suffix.
  split.
  - intros [[[[[[H | (c & r & Hc & H)] | (c & r & Hc & H)] | [p H]] | [p H]] | [p H]]
            | (c & r & Hc & H)].
    + now left.
    + right; left. exists c, r. auto.
    + right; left. exists c, r. auto.
    + right; right. exists p. auto.
    + right; right. exists p. auto.
    + right; right. exists p. auto.
    + right; left. exists c, r. auto.
  - intros [H | [(c & r & Hc & [H | [H | H]]) | (p & [H | [H | H]])]].
    + do 6 left. exact H.
    + do 5 left. right. exists c, r. auto.
    + do 4 left. right. exists c, r. auto.
    + right. exists c, r. auto.
    + do 3 left. right. exists p. exact H.
    + do 2 left. right. exists p. exact H.
    + left. right. exists p. exact H.
Qed.

Lemma blacklisted_names_witness : isBlacklistedFunction "clickHandler" = true.
Proof.
  apply (proj2 (blacklisted_names "clickHandler")).
  right. right. exists "click". left. reflexivity.
Defined.

(* ===================================================================== *)
(** ** What the manual walk returns *)

Lemma append_cons c s t : String c s +:+ t = String c (s +:+ t).
Proof. reflexivity. Qed.

Lemma toLowerCase_append s t :
  toLowerCase (s +:+ t) = toLowerCase s +:+ toLowerCase t.
Proof.
  induction s as [|c s IH]; [reflexivity|].
  rewrite append_cons. cbn [toLowerCase]. now rewrite append_cons, IH.
Qed.

Lemma from_last_dot_suffix s e :
  from_last_dot s = Some e -> exists pre, s = pre +:+ e.
Proof.
  revert e. induction s as [|c s IH]; intros e; simpl; [discriminate|].
  destruct (from_last_dot s) as [e'|].
  - intros [= <-]. destruct (IH e' eq_refl) as [pre ->].
    now exists (String c pre).
  - destruct (Ascii.eqb c "."); [|discriminate].
    intros [= <-]. now exists "".
Qed.

Lemma append_empty_r s : s +:+ "" = s.
Proof. induction s as [|c s IH]; [reflexivity | now rewrite append_cons, IH]. Qed.

Lemma append_assoc s t u : (s +:+ t) +:+ u = s +:+ (t +:+ u).
Proof. induction s as [|c s IH]; [reflexivity | now rewrite !append_cons, IH]. Qed.

Lemma extname_suffix file : exists pre, file = pre +:+ extname file.
Proof.
  unfold extname. destruct file as [|c r].
  - now exists "".
  - destruct (from_last_dot r) as [e|] eqn:E.
    + destruct (String.eqb (String c r) "..").
      * exists (String c r). symmetry. apply (append_empty_r (String c r)).
      * destruct (from_last_dot_suffix _ _ E) as [pre ->].
        now exists (String c pre).
    + exists (String c r). symmetry. apply (append_empty_r (String c r)).
Qed.

Lemma path_join_suffix basePath file : exists pre, path_join basePath file = pre +:+ file.
Proof.
  unfold path_join. destruct (String.eqb basePath "").
  - now exists "".
  - exists (basePath +:+ "/"). now rewrite append_assoc.
Qed.

Lemma source_file_path basePath file :
  includes [".js"; ".jsx"; ".mjs"; ".ts"; ".tsx"] (toLowerCase (extname file)) = true ->
  source_path (path_join basePath file).
Proof.
  intros H. exists (toLowerCase (extname file)). split.
  - unfold includes in H. now apply existsb_eqb_In.
  - apply ends_with_suffix.
    destruct (path_join_suffix basePath file) as [q ->].
    destruct (extname_suffix file) as [pre Hpre].
    exists (toLowerCase (q +:+ pre)).
    rewrite Hpre at 1. now rewrite <- toLowerCase_append, append_assoc.
Qed.

Lemma listed_source_paths : forall dir basePath p,
  In p (listed dir basePath) -> source_path p.
Proof.
  fix IH 1. intros [files|] base p; [|intros []].
  cbn -[includes excluded].
  induction files as [|e r IHr]; cbn -[includes excluded]; [intros []|].
  destruct e as [file | file sub | file | file]; try exact IHr.
  - destruct (includes _ (toLowerCase (extname file))) eqn:E;
      cbn -[includes excluded]; [|exact IHr].
    intros [<- | H]; [now apply source_file_path | now apply IHr].
  - intros H. apply in_app_or in H as [H | H]; [|now apply IHr].
    destruct (excluded file); [destruct H|]. exact (IH sub _ _ H).
Qed.

(** X13: when the manual walk returns, it has only added to the list it
    was given, what it added does not depend on that list, and every
    path it added ends, case-insensitively, with [.js], [.jsx], [.mjs],
    [.ts] or [.tsx]. *)
Theorem manual_walk_adds_source_paths dir filesList basePath result :
  findJSFilesManually dir filesList basePath = Some result ->
  exists added,
    result = (filesList ++ added)%list
    /\ findJSFilesManually dir [] basePath = Some added
    /\ forall p, In p added -> source_path p.
Proof.
  rewrite !findJSFilesManually_spec. destruct (walkable dir); [|discriminate].
  intros [= <-]. exists (listed dir basePath).
  split; [reflexivity|]. split; [reflexivity|].
  intros p. apply listed_source_paths.
Qed.

Lemma manual_walk_adds_source_paths_witness :
  exists added,
    ["x.js"; "a.js"; "lib/util.MJS"; "b.ts"] = (["x.js"] ++ added)%list
    /\ findJSFilesManually open_tree [] "" = Some added
    /\ forall p, In p added -> source_path p.
Proof.
  apply (manual_walk_adds_source_paths open_tree ["x.js"] ""
           ["x.js"; "a.js"; "lib/util.MJS"; "b.ts"]).
  reflexivity.
Defined.

Lemma no_dot_no_suffix r : has_char "." r = false -> from_last_dot r = None.
Proof.
  induction r as [|c r IH]; simpl; [reflexivity|].
  intros H. apply orb_false_iff in H as [Hc Hr].
  now rewrite (IH Hr), Hc.
Qed.

(** X14: a file whose name has its only dot in front (such as [.js] or
    [.gitignore]) has no extension and is never listed; an excluded
    directory is passed over without being read, readable or not. *)
Theorem dot_files_and_excluded_directories_skipped :
  (forall r rest filesList basePath,
     has_char "." r = false ->
     findJSFilesManually (Listing (FsFile (String "." r) :: rest)) filesList basePath
     = findJSFilesManually (Listing rest) filesList basePath)
  /\ (forall file sub rest filesList basePath,
        In file ["node_modules"; "dist"; "build"; ".git"] ->
        findJSFilesManually (Listing (FsDir file sub :: rest)) filesList basePath
        = findJSFilesManually (Listing rest) filesList basePath).
Proof.
  split.
  - intros r rest acc base Hr. cbn -[includes].
    unfold extname. rewrite (no_dot_no_suffix r Hr). reflexivity.
  - intros file sub rest acc base Hin. cbn -[includes].
    assert (includes ["node_modules"; "dist"; "build"; ".git"] file = true) as ->
      by (now apply existsb_eqb_In).
    reflexivity.
Qed.

Lemma dot_files_and_excluded_directories_skipped_witness :
  findJSFilesManually (Listing [FsFile ".js"; FsDir ".git" NoAccess; FsFile "a.js"])
                      [] "" = Some ["a.js"].
Proof.
  rewrite (proj1 dot_files_and_excluded_directories_skipped "js"
             [FsDir ".git" NoAccess; FsFile "a.js"] [] "" eq_refl).
  rewrite (proj2 dot_files_and_excluded_directories_skipped ".git" NoAccess
             [FsFile "a.js"] [] "" ltac:(simpl; tauto)).
  reflexivity.
Defined.

(* ===================================================================== *)
(** ** Splitting a style sheet into rules *)

Lemma split_step_text st prevChar char :
  (concat (rules (split_step st prevChar char))
   ++ currentRule (split_step st prevChar char))%list
  = (concat (rules st) ++ currentRule st ++ [char])%list.
Proof.
  unfold split_step.
  repeat match goal with
         | |- context [if ?b then _ else _] => destruct b
         end; simpl; try reflexivity;
    now rewrite concat_app, app_nil_r; simpl; rewrite app_nil_r.
Qed.

Lemma split_loop_text cssContent : forall st prevChar,
  (concat (rules (split_loop st prevChar cssContent))
   ++ currentRule (split_loop st prevChar cssContent))%list
  = (concat (rules st) ++ currentRule st ++ cssContent)%list.
Proof.
  induction cssContent as [|c r IH]; intros st p; simpl.
  - now rewrite app_nil_r.
  - rewrite IH, app_assoc, split_step_text. now rewrite <- !app_assoc.
Qed.

Lemma trimStart_nil s : trimStart s = [] <-> forallb is_space s = true.
Proof.
  induction s as [|c r IH]; simpl; [easy|].
  destruct (is_space c); simpl; [exact IH | easy].
Qed.

Lemma trimStart_head s c r : trimStart s = c :: r -> is_space c = false.
Proof.
  induction s as [|d s IH]; simpl; [discriminate|].
  destruct (is_space d) eqn:E; [exact IH|]. now intros [= <- _].
Qed.

Lemma trimStart_keeps s x :
  In x s -> is_space x = false -> exists c r, trimStart s = c :: r.
Proof.
  induction s as [|d s IH]; simpl; [easy|].
  intros [-> | Hin] Hx.
  - rewrite Hx. eauto.
  - destruct (is_space d); eauto.
Qed.

Lemma trimStart_In s x : In x (trimStart s) -> In x s.
Proof.
  induction s as [|d s IH]; simpl; [easy|].
  destruct (is_space d); [auto | easy].
Qed.

Lemma trim_nil s : trim s = [] <-> forallb is_space s = true.
Proof.
  unfold trim, trimEnd. split.
  - intros H. apply trimStart_nil.
    destruct (trimStart s) as [|c r] eqn:E; [reflexivity|].
    exfalso. pose proof (trimStart_head _ _ _ E) as Hc.
    destruct (trimStart_keeps (rev (c :: r)) c) as (c' & r' & E');
      [apply in_rev; rewrite rev_involutive; now left | exact Hc |].
    rewrite E' in H. now destruct (rev r'); simpl in H; destruct (rev _).
  - intros H. apply trimStart_nil in H. now rewrite H.
Qed.

Lemma trim_not_nil s x : In x s -> is_space x = false -> trim s <> [].
Proof.
  intros Hin Hx H. apply trim_nil in H.
  rewrite forallb_forall in H. specialize (H x Hin). congruence.
Qed.

(** X15: splitting loses no text but trailing white space: the rules,
    put end to end, are the style sheet up to a rest that [trim] empties. *)
Theorem split_keeps_text cssContent :
  exists rest,
    cssContent = (concat (splitIntoRules cssContent) ++ rest)%list
    /\ trim rest = [].
Proof.
  pose proof (split_loop_text cssContent new_splitter None) as H.
  simpl in H. unfold splitIntoRules, split_finish.
  destruct (trim (currentRule (split_loop new_splitter None cssContent))) eqn:E.
  - exists (currentRule (split_loop new_splitter None cssContent)). now split.
  - exists []. split; [|reflexivity].
    now rewrite concat_app, app_nil_r; simpl; rewrite app_nil_r.
Qed.

Lemma split_step_closed st prevChar char :
  (forall r, In r (rules st) -> exists body, r = (body ++ [125%N])%list) ->
  forall r, In r (rules (split_step st prevChar char)) ->
            exists body, r = (body ++ [125%N])%list.
Proof.
  intros H r. unfold split_step.
  repeat match goal with
         | |- context [if ?b then _ else _] => destruct b eqn:?
         end; simpl; auto.
  all: intros Hin; apply in_app_or in Hin as [Hin | [<- | []]]; auto.
  all: match goal with E : (?c =? 125)%N = true |- _ =>
         apply N.eqb_eq in E; subst c end; eauto.
Qed.

Lemma split_loop_closed cssContent : forall st prevChar,
  (forall r, In r (rules st) -> exists body, r = (body ++ [125%N])%list) ->
  forall r, In r (rules (split_loop st prevChar cssContent)) ->
            exists body, r = (body ++ [125%N])%list.
Proof.
  induction cssContent as [|c s IH]; intros st p H; simpl; [exact H|].
  apply IH. now apply split_step_closed.
Qed.

(** X16: every rule the split gives but possibly the last ends with a
    closing brace, and no rule is blank: the emptiness test that
    [parseCSSContent] makes on each trimmed rule always passes. *)
Theorem split_rules_closed_and_not_blank cssContent :
  (exists complete tail,
     splitIntoRules cssContent = (complete ++ tail)%list
     /\ (forall r, In r complete -> exists body, r = (body ++ [125%N])%list)
     /\ (tail = [] \/ exists t, tail = [t]))
  /\ (forall r, In r (splitIntoRules cssContent) -> trim r <> []).
Proof.
  pose proof (split_loop_closed cssContent new_splitter None
                ltac:(intros r [])) as Hc.
  unfold splitIntoRules, split_finish.
  destruct (trim (currentRule (split_loop new_splitter None cssContent))) eqn:E.
  - split.
    + exists (rules (split_loop new_splitter None cssContent)), [].
      rewrite app_nil_r. auto.
    + intros r Hin. destruct (Hc r Hin) as [body ->].
      apply (trim_not_nil _ 125%N); [apply in_or_app; right; now left | reflexivity].
  - split.
    + exists (rules (split_loop new_splitter None cssContent)),
             [currentRule (split_loop new_splitter None cssContent)].
      split; [reflexivity|]. split; [exact Hc | eauto].
    + intros r Hin. apply in_app_or in Hin as [Hin | [<- | []]].
      * destruct (Hc r Hin) as [body ->].
        apply (trim_not_nil _ 125%N); [apply in_or_app; right; now left | reflexivity].
      * now rewrite E.
Qed.

Lemma split_rules_closed_and_not_blank_witness :
  trim (units ".a{}") <> [].
Proof.
  apply (proj2 (split_rules_closed_and_not_blank (units ".a{} ")) (units ".a{}")).
  left. reflexivity.
Defined.

Lemma split_step_related pushed st1 st2 p1 p2 char :
  split_related pushed st1 st2 ->
  is_backslash p1 = is_backslash p2 ->
  split_related pushed (split_step st1 p1 char) (split_step st2 p2 char).
Proof.
  intros (Hr & Hc & Hb & Hi & Hs) Hp. unfold split_related, split_step.
  rewrite Hr, Hc, Hb, Hi, Hp.
  destruct (is_quote char && negb (is_backslash p2)) eqn:Eq;
    destruct (inString st2) eqn:Ei; simpl.
  - rewrite (Hs eq_refl).
    destruct (same_char (stringChar st2) char) eqn:Es; simpl;
      repeat match goal with
             | |- context [if ?b then _ else _] => destruct b
             end; simpl; repeat split; auto using app_assoc; try discriminate.
  - repeat split; auto.
  - repeat split; auto.
  - repeat match goal with
           | |- context [if ?b then _ else _] => destruct b
           end; simpl; repeat split; auto using app_assoc; try discriminate.
Qed.

Lemma split_loop_related cssContent : forall pushed st1 st2 p1 p2,
  split_related pushed st1 st2 ->
  is_backslash p1 = is_backslash p2 ->
  split_related pushed (split_loop st1 p1 cssContent) (split_loop st2 p2 cssContent).
Proof.
  induction cssContent as [|c r IH]; intros pushed st1 st2 p1 p2 H Hp; simpl;
    [exact H|].
  apply IH; [now apply split_step_related | reflexivity].
Qed.

Lemma last_default {A} (l : list A) x d d' :
  List.last (x :: l) d = List.last (x :: l) d'.
Proof.
  revert x. induction l as [|y l IH]; intros x; [reflexivity|].
  exact (IH y).
Qed.

Lemma split_loop_app a : forall st prevChar b,
  split_loop st prevChar (a ++ b)%list
  = split_loop (split_loop st prevChar a) (List.last (map Some a) prevChar) b.
Proof.
  induction a as [|c r IH]; intros st p b; [reflexivity|].
  cbn [app split_loop]. rewrite IH. f_equal.
  destruct r as [|d r]; [reflexivity|].
  change (map Some (c :: d :: r)) with (Some c :: map Some (d :: r)).
  change (List.last (Some c :: map Some (d :: r)) p)
    with (List.last (map Some (d :: r)) p).
  apply (last_default (map Some r) (Some d)).
Qed.

Lemma split_step_rest st prevChar char :
  currentRule (split_step st prevChar char) = [] ->
  braceCount (split_step st prevChar char) = 0%Z
  /\ inString (split_step st prevChar char) = false
  /\ char = 125%N.
Proof.
  unfold split_step.
  repeat match goal with
         | |- context [if ?b then _ else _] => destruct b eqn:?
         end; simpl; intros H;
    try (now destruct (currentRule st)).
  all: repeat split;
    try match goal with E : (_ =? 0)%Z = true |- _ => now apply Z.eqb_eq in E end;
    try match goal with E : (_ =? 125)%N = true |- _ => now apply N.eqb_eq in E end.
Qed.

Lemma split_all_rest a :
  currentRule (split_all a) = [] ->
  braceCount (split_all a) = 0%Z
  /\ inString (split_all a) = false
  /\ is_backslash (List.last (map Some a) None) = false.
Proof.
  unfold split_all. destruct a as [|c r] using rev_ind; [now simpl|].
  clear IHr. rewrite split_loop_app. cbn [split_loop].
  intros H. apply split_step_rest in H as (Hb & Hi & ->).
  repeat split; auto. rewrite map_app. cbn [map]. now rewrite List.last_last.
Qed.

(** X17: a style sheet that ends where a rule ends can be split on its
    own: the rules of what follows it are found as if it stood alone. *)
Theorem split_after_complete_rules a b :
  currentRule (split_all a) = [] ->
  splitIntoRules (a ++ b)%list = (splitIntoRules a ++ splitIntoRules b)%list.
Proof.
  intros Hcur. destruct (split_all_rest a Hcur) as (Hb & Hi & Hp).
  assert (splitIntoRules a = rules (split_all a)) as ->.
  { unfold splitIntoRules, split_finish. fold (split_all a). now rewrite Hcur. }
  unfold splitIntoRules. rewrite split_loop_app. fold (split_all a).
  assert (split_related (rules (split_all a)) (split_all a) new_splitter) as Hrel.
  { unfold split_related. simpl. rewrite app_nil_r, Hi. repeat split; auto.
    discriminate. }
  pose proof (split_loop_related b _ _ _ (List.last (map Some a) None) None Hrel Hp)
    as (Hr & Hc & _).
  unfold split_finish. rewrite Hr, Hc.
  destruct (trim _); [reflexivity | now rewrite app_assoc].
Qed.

Lemma split_after_complete_rules_witness :
  splitIntoRules (units ".a{}" ++ units " .b{} ")%list
  = (splitIntoRules (units ".a{}") ++ splitIntoRules (units " .b{} "))%list.
Proof.
  apply (split_after_complete_rules (units ".a{}") (units " .b{} ")).
  reflexivity.
Defined.

(* ===================================================================== *)
(** ** Matching a selector *)

Lemma strip_prefix_spec p : forall s rest,
  strip_prefix p s = Some rest <-> s = (p ++ rest)%list.
Proof.
  induction p as [|a p IH]; intros s rest; simpl.
  - split; [now intros [= ->] | now intros ->].
  - destruct s as [|b s]; [split; discriminate|].
    destruct (N.eqb_spec a b) as [->|Hne].
    + rewrite IH. split; [now intros -> | now intros [= ->]].
    + split; [discriminate | intros [= -> _]; contradiction].
Qed.

Lemma literal_here_spec lit s :
  literal_here lit s = true <->
  exists after, s = (lit ++ after)%list
                /\ match after with
                   | [] => True
                   | c :: _ => word_or_hyphen c = false
                   end.
Proof.
  unfold literal_here. destruct (strip_prefix lit s) as [rest|] eqn:E.
  - apply strip_prefix_spec in E. subst. split.
    + intros H. exists rest. split; [reflexivity|].
      destruct rest; [exact I | now apply negb_true_iff].
    + intros (after & Heq & H). apply app_inv_head in Heq. subst after.
      destruct rest; [reflexivity | now apply negb_true_iff].
  - split; [discriminate|]. intros (after & Heq & _).
    apply strip_prefix_spec in Heq. congruence.
Qed.

Lemma test_literal_spec lit s : test_literal lit s = true <-> stands_in lit s.
Proof.
  unfold stands_in. induction s as [|c s IH]; simpl.
  - rewrite orb_false_r, literal_here_spec. split.
    + intros (after & H & Ha). exists [], after. auto.
    + intros (before & after & H & Ha).
      destruct before; [eauto | discriminate].
  - rewrite orb_true_iff, literal_here_spec, IH. split.
    + intros [(after & H & Ha) | (before & after & H & Ha)].
      * exists [], after. auto.
      * exists (c :: before), after. split; [now rewrite H | exact Ha].
    + intros (before & after & H & Ha). destruct before as [|b before].
      * left. eauto.
      * right. injection H as -> ->. eauto.
Qed.

Lemma text_eqb_spec s : forall t, text_eqb s t = true <-> s = t.
Proof.
  unfold text_eqb. induction s as [|a s IH]; intros [|b t]; simpl;
    try (split; (discriminate || reflexivity)).
  specialize (IH t). rewrite andb_true_iff in *.
  rewrite !andb_true_iff, N.eqb_eq, Nat.eqb_eq in *. split.
  - intros (Hl & Hab & Hf). f_equal; [exact Hab|]. apply IH. auto.
  - intros [= -> ->]. destruct IH as [_ IH]. destruct (IH eq_refl). auto.
Qed.

(** X18: a class or id target (one that starts with a dot or a hash)
    matches a selector exactly when it stands in the selector at a place
    where neither a word character nor a hyphen follows: [.btn] matches
    [a.btn:hover] and not [.btn-primary]. *)
Theorem class_and_id_targets_match_whole_names selector target rest :
  target = (46%N :: rest) \/ target = (35%N :: rest) ->
  selectorMatches selector target = true <-> stands_in target selector.
Proof.
  intros Ht. unfold selectorMatches.
  destruct (text_eqb selector target) eqn:E.
  - apply text_eqb_spec in E. subst selector. split; [|reflexivity].
    intros _. exists [], []. now rewrite app_nil_r.
  - destruct Ht as [-> | ->]; apply test_literal_spec.
Qed.

Lemma class_and_id_targets_match_whole_names_witness :
  selectorMatches (units "a.btn:hover") (units ".btn") = true
  <-> stands_in (units ".btn") (units "a.btn:hover").
Proof.
  apply (class_and_id_targets_match_whole_names _ _ (units "btn")).
  left. reflexivity.
Defined.

Example class_target_examples :
  selectorMatches (units "a.btn:hover") (units ".btn") = true
  /\ selectorMatches (units ".btn-primary") (units ".btn") = false
  /\ selectorMatches (units ".btn_x") (units ".btn") = false
  /\ selectorMatches (units "ul li.btn") (units "#btn") = false
  /\ selectorMatches (units "div > span") (units "span") = true
  /\ selectorMatches (units "div > spans") (units "span") = false
  /\ selectorMatches (units "a[href]") (units "[href]") = true.
Proof. repeat split. Qed.

(* ===================================================================== *)
(** ** Aggregates of declarations, warnings of files *)

(** X19: after a run every declaration has a call aggregate under its
    name, so the call count a report shows for it is the [totalCalls]
    of that aggregate and the number of its recorded callers. *)
Theorem every_declaration_has_aggregate jsFiles id f :
  In (id, f) (functions (analyzeFiles jsFiles new_analyzer)) ->
  exists callInfo,
    functionCalls (analyzeFiles jsFiles new_analyzer) !! fn_name f = Some callInfo
    /\ callCount (analyzeFiles jsFiles new_analyzer) f = totalCalls callInfo
    /\ totalCalls callInfo = List.length (callers callInfo).
Proof.
  intros Hin.
  destruct (declared_aggregates_run jsFiles id f Hin) as [callInfo Hc].
  exists callInfo. split; [exact Hc|]. split.
  - unfold callCount. now rewrite Hc.
  - assert (aggregate_invariant (analyzeFiles jsFiles new_analyzer)) as Hinv.
    { apply (analyzeFiles_invariant (fun _ => True));
        auto using analyzeFunction_aggregates, analyzeCall_aggregates,
                   push_error_aggregates, files_entering_True.
      apply map_Forall_empty. }
    exact (Hinv _ _ Hc).
Qed.

Lemma every_declaration_has_aggregate_witness :
  exists callInfo,
    functionCalls (analyzeFiles [ab_js] new_analyzer) !! "a" = Some callInfo
    /\ callCount (analyzeFiles [ab_js] new_analyzer)
         {| fn_name := "a"; fn_async := false; fn_file := "ab.js";
            fn_class := None; fn_line := Some 1;
            awaitedOperations := []; promiseOperations := [] |}
       = totalCalls callInfo
    /\ totalCalls callInfo = List.length (callers callInfo).
Proof.
  apply (every_declaration_has_aggregate [ab_js] "ab.js:a:1"
           {| fn_name := "a"; fn_async := false; fn_file := "ab.js";
              fn_class := None; fn_line := Some 1;
              awaitedOperations := []; promiseOperations := [] |}).
  left. reflexivity.
Defined.

Lemma errors_visits file evs st :
  errors (snd (fold_left (visit file) evs st)) = errors (snd st).
Proof.
  apply (visits_invariant (fun _ => True)
           (fun a => errors a = errors (snd st)));
    auto using entering_True.
  - intros n p f c a <-. unfold analyzeFunction.
    destruct (negb _); [reflexivity|]. now destruct (isBlacklistedFunction _).
  - intros n p f a _ <-. unfold analyzeCall.
    now destruct (getCallName n) as [[|ch x]|].
Qed.

(** X20: the warnings of a run are the files whose reading, parsing or
    traversal threw, one message for each, in the order of the files; a
    file that is analyzed to its end adds none. *)
Theorem warnings_are_the_failing_files jsFiles :
  errors (analyzeFiles jsFiles new_analyzer) = flat_map failure_message jsFiles.
Proof.
  change (errors (analyzeFiles jsFiles new_analyzer)
          = (errors new_analyzer ++ flat_map failure_message jsFiles)%list).
  generalize new_analyzer. unfold analyzeFiles.
  induction jsFiles as [|f r IH]; intros a; simpl; [now rewrite app_nil_r|].
  rewrite IH, app_assoc. f_equal.
  unfold analyzeFolder_step, analyzeFile, failure_message.
  destruct (content f) as [m | m | ast | ast k m]; try reflexivity.
  - rewrite errors_visits. simpl. now rewrite app_nil_r.
  - simpl. now rewrite errors_visits.
Qed.

(** The traversal of [p.js] overflows the stack before the first visit:
    the run records the warning and none of the calls of the file. *)
Example run_deep :
  errors (analyzeFiles [deep_js] new_analyzer)
    = ["Error analyzing p.js: Maximum call stack size exceeded"]
  /\ functionCalls (analyzeFiles [deep_js] new_analyzer) = ∅
  /\ functions (analyzeFiles [deep_js] new_analyzer) = [].
Proof. repeat split. Qed.
